(** * Quiz session engine of [src/main.js]

    A shallow embedding of the quiz runner: the module-level [state] object,
    the parts of the page the handlers read back (which screens are hidden,
    which choice buttons and progress items carry handlers, the review list),
    the answer-record objects with their identity, and the pending
    [setTimeout] callbacks.  Every handler of the source is a function from
    states to outcomes; the event loop is a step function over user actions
    and timer expiries.  renderMath and the sketch surface (setupCanvas and
    the tool buttons) are modelled on their own, as the code keeps them
    apart from the quiz state. *)

From stdpp Require Import gmap strings list fin_maps.
From Stdlib Require Import ZArith Lia.

Open Scope Z_scope.

(** ** Data *)

(** [state.mode]: the two literals ['practice'] and ['test']. *)
Inductive Mode := practice | test.

Global Instance Mode_eq_dec : EqDecision Mode.
Proof. solve_decision. Defined.

(** The three error-cause literals offered under an incorrect review entry,
    in the order of the source array. *)
Inductive Tag := SetupMistake | CalculationMistake | Misread.

Global Instance Tag_eq_dec : EqDecision Tag.
Proof. solve_decision. Defined.

(** The [errorTag] property of an answer object: absent on a fresh object
    ([undefined]), [null] after a tag was toggled off, or one of the tags. *)
Inductive TagSlot := tag_undefined | tag_null | tag_is (t : Tag).

Global Instance TagSlot_eq_dec : EqDecision TagSlot.
Proof. solve_decision. Defined.

(** What the review calls "the tag": [undefined] and [null] are both none. *)
Definition tag_of (v : TagSlot) : option Tag :=
  match v with tag_is t => Some t | _ => None end.

(** [ans.errorTag === tag] *)
Definition slot_equals (v : TagSlot) (t : Tag) : bool :=
  match v with tag_is t' => bool_decide (t' = t) | _ => false end.

(** truthiness of [ans.errorTag] *)
Definition slot_truthy (v : TagSlot) : bool :=
  match v with tag_is _ => true | _ => false end.

(** One entry of [questions.json]. *)
Record Question := {
  q_id : string;
  q_prompt : string;
  q_choices : list string;
  q_correctIndex : Z;
  q_answerLatex : option string;
  q_point : option string;
  q_figure : option string
}.

(** An object stored in [state.answers]. *)
Record Answer := {
  isCorrect : bool;
  selectedIndex : Z;
  timestamp : Z;
  errorTag : TagSlot
}.

(** Answer objects live in a store and are referred to by their allocation
    number, so that a closure holding [ans] and the entry of [state.answers]
    can be told apart when they stop being the same object. *)
Abbreviation loc := nat (only parsing).

(** A callback registered with [setTimeout]. *)
Inductive Task :=
  | OverlayTimeout (q : Question) (* the 500 ms callback of showFeedbackOverlay *)
  | NextTimeout.                  (* the 200 ms [() => nextQuestion()] *)

(** One [review-item] of the results screen: the question, the [ans] object
    captured by its tag handlers, the verdict shown in its header, and the
    tag button carrying the [selected] class.  Tag buttons exist only when
    the verdict is "incorrect". *)
Record ReviewItem := {
  r_question : Question;
  r_ans : option loc;
  r_isCorrect : bool;
  r_selected : option Tag
}.

(** [answers] stands for the object [state.answers] as far as answer
    records go: [answers s !! k = Some l] means that [state.answers[k]]
    evaluates to the record object [l].  For every key but ["__proto__"]
    that is an own property of the object; an assignment to
    [state.answers["__proto__"]] instead makes the record the prototype of
    the object, where a lookup of ["__proto__"] finds it but [Object.values]
    does not.  A lookup can also find something that is not an answer
    record: a member of [Object.prototype] (for an id such as ["toString"])
    or a field of a record that has become the prototype.  Such values are
    not kept; statements that depend on what a lookup yields when it finds
    no record assume [plainIds], under which it yields [undefined]. *)
Record State := {
  (* the [state] object *)
  questions : list Question;
  currentQuestionIndex : Z;
  answers : gmap string loc;
  mode : Mode;
  (* run time *)
  heap : list Answer;
  timers : list (Z * Task);
  alerts : nat;
  (* the page *)
  startScreenHidden : bool;
  resultsScreenHidden : bool;
  questionText : option Question;
  choiceButtons : list nat;
  feedbackHidden : bool;
  explanation : option Question;
  progressItems : nat;
  scoreDisplay : option (nat * nat);
  reviewList : list ReviewItem
}.

(** Field updates. *)
Definition set_currentQuestionIndex (v : Z) (s : State) : State :=
  {| questions := questions s; currentQuestionIndex := v; answers := answers s;
     mode := mode s; heap := heap s; timers := timers s; alerts := alerts s;
     startScreenHidden := startScreenHidden s;
     resultsScreenHidden := resultsScreenHidden s;
     questionText := questionText s; choiceButtons := choiceButtons s;
     feedbackHidden := feedbackHidden s; explanation := explanation s;
     progressItems := progressItems s; scoreDisplay := scoreDisplay s;
     reviewList := reviewList s |}.

Definition set_answers (v : gmap string loc) (s : State) : State :=
  {| questions := questions s; currentQuestionIndex := currentQuestionIndex s;
     answers := v;
     mode := mode s; heap := heap s; timers := timers s; alerts := alerts s;
     startScreenHidden := startScreenHidden s;
     resultsScreenHidden := resultsScreenHidden s;
     questionText := questionText s; choiceButtons := choiceButtons s;
     feedbackHidden := feedbackHidden s; explanation := explanation s;
     progressItems := progressItems s; scoreDisplay := scoreDisplay s;
     reviewList := reviewList s |}.

Definition set_mode (v : Mode) (s : State) : State :=
  {| questions := questions s; currentQuestionIndex := currentQuestionIndex s;
     answers := answers s;
     mode := v; heap := heap s; timers := timers s; alerts := alerts s;
     startScreenHidden := startScreenHidden s;
     resultsScreenHidden := resultsScreenHidden s;
     questionText := questionText s; choiceButtons := choiceButtons s;
     feedbackHidden := feedbackHidden s; explanation := explanation s;
     progressItems := progressItems s; scoreDisplay := scoreDisplay s;
     reviewList := reviewList s |}.

Definition set_heap (v : list Answer) (s : State) : State :=
  {| questions := questions s; currentQuestionIndex := currentQuestionIndex s;
     answers := answers s;
     mode := mode s; heap := v; timers := timers s; alerts := alerts s;
     startScreenHidden := startScreenHidden s;
     resultsScreenHidden := resultsScreenHidden s;
     questionText := questionText s; choiceButtons := choiceButtons s;
     feedbackHidden := feedbackHidden s; explanation := explanation s;
     progressItems := progressItems s; scoreDisplay := scoreDisplay s;
     reviewList := reviewList s |}.

Definition set_timers (v : list (Z * Task)) (s : State) : State :=
  {| questions := questions s; currentQuestionIndex := currentQuestionIndex s;
     answers := answers s;
     mode := mode s; heap := heap s; timers := v; alerts := alerts s;
     startScreenHidden := startScreenHidden s;
     resultsScreenHidden := resultsScreenHidden s;
     questionText := questionText s; choiceButtons := choiceButtons s;
     feedbackHidden := feedbackHidden s; explanation := explanation s;
     progressItems := progressItems s; scoreDisplay := scoreDisplay s;
     reviewList := reviewList s |}.

Definition set_alerts (v : nat) (s : State) : State :=
  {| questions := questions s; currentQuestionIndex := currentQuestionIndex s;
     answers := answers s;
     mode := mode s; heap := heap s; timers := timers s; alerts := v;
     startScreenHidden := startScreenHidden s;
     resultsScreenHidden := resultsScreenHidden s;
     questionText := questionText s; choiceButtons := choiceButtons s;
     feedbackHidden := feedbackHidden s; explanation := explanation s;
     progressItems := progressItems s; scoreDisplay := scoreDisplay s;
     reviewList := reviewList s |}.

Definition set_startScreenHidden (v : bool) (s : State) : State :=
  {| questions := questions s; currentQuestionIndex := currentQuestionIndex s;
     answers := answers s;
     mode := mode s; heap := heap s; timers := timers s; alerts := alerts s;
     startScreenHidden := v;
     resultsScreenHidden := resultsScreenHidden s;
     questionText := questionText s; choiceButtons := choiceButtons s;
     feedbackHidden := feedbackHidden s; explanation := explanation s;
     progressItems := progressItems s; scoreDisplay := scoreDisplay s;
     reviewList := reviewList s |}.

Definition set_resultsScreenHidden (v : bool) (s : State) : State :=
  {| questions := questions s; currentQuestionIndex := currentQuestionIndex s;
     answers := answers s;
     mode := mode s; heap := heap s; timers := timers s; alerts := alerts s;
     startScreenHidden := startScreenHidden s;
     resultsScreenHidden := v;
     questionText := questionText s; choiceButtons := choiceButtons s;
     feedbackHidden := feedbackHidden s; explanation := explanation s;
     progressItems := progressItems s; scoreDisplay := scoreDisplay s;
     reviewList := reviewList s |}.

Definition set_questionText (v : option Question) (s : State) : State :=
  {| questions := questions s; currentQuestionIndex := currentQuestionIndex s;
     answers := answers s;
     mode := mode s; heap := heap s; timers := timers s; alerts := alerts s;
     startScreenHidden := startScreenHidden s;
     resultsScreenHidden := resultsScreenHidden s;
     questionText := v; choiceButtons := choiceButtons s;
     feedbackHidden := feedbackHidden s; explanation := explanation s;
     progressItems := progressItems s; scoreDisplay := scoreDisplay s;
     reviewList := reviewList s |}.

Definition set_choiceButtons (v : list nat) (s : State) : State :=
  {| questions := questions s; currentQuestionIndex := currentQuestionIndex s;
     answers := answers s;
     mode := mode s; heap := heap s; timers := timers s; alerts := alerts s;
     startScreenHidden := startScreenHidden s;
     resultsScreenHidden := resultsScreenHidden s;
     questionText := questionText s; choiceButtons := v;
     feedbackHidden := feedbackHidden s; explanation := explanation s;
     progressItems := progressItems s; scoreDisplay := scoreDisplay s;
     reviewList := reviewList s |}.

Definition set_feedbackHidden (v : bool) (s : State) : State :=
  {| questions := questions s; currentQuestionIndex := currentQuestionIndex s;
     answers := answers s;
     mode := mode s; heap := heap s; timers := timers s; alerts := alerts s;
     startScreenHidden := startScreenHidden s;
     resultsScreenHidden := resultsScreenHidden s;
     questionText := questionText s; choiceButtons := choiceButtons s;
     feedbackHidden := v; explanation := explanation s;
     progressItems := progressItems s; scoreDisplay := scoreDisplay s;
     reviewList := reviewList s |}.

Definition set_explanation (v : option Question) (s : State) : State :=
  {| questions := questions s; currentQuestionIndex := currentQuestionIndex s;
     answers := answers s;
     mode := mode s; heap := heap s; timers := timers s; alerts := alerts s;
     startScreenHidden := startScreenHidden s;
     resultsScreenHidden := resultsScreenHidden s;
     questionText := questionText s; choiceButtons := choiceButtons s;
     feedbackHidden := feedbackHidden s; explanation := v;
     progressItems := progressItems s; scoreDisplay := scoreDisplay s;
     reviewList := reviewList s |}.

Definition set_progressItems (v : nat) (s : State) : State :=
  {| questions := questions s; currentQuestionIndex := currentQuestionIndex s;
     answers := answers s;
     mode := mode s; heap := heap s; timers := timers s; alerts := alerts s;
     startScreenHidden := startScreenHidden s;
     resultsScreenHidden := resultsScreenHidden s;
     questionText := questionText s; choiceButtons := choiceButtons s;
     feedbackHidden := feedbackHidden s; explanation := explanation s;
     progressItems := v; scoreDisplay := scoreDisplay s;
     reviewList := reviewList s |}.

Definition set_scoreDisplay (v : option (nat * nat)) (s : State) : State :=
  {| questions := questions s; currentQuestionIndex := currentQuestionIndex s;
     answers := answers s;
     mode := mode s; heap := heap s; timers := timers s; alerts := alerts s;
     startScreenHidden := startScreenHidden s;
     resultsScreenHidden := resultsScreenHidden s;
     questionText := questionText s; choiceButtons := choiceButtons s;
     feedbackHidden := feedbackHidden s; explanation := explanation s;
     progressItems := progressItems s; scoreDisplay := v;
     reviewList := reviewList s |}.

Definition set_reviewList (v : list ReviewItem) (s : State) : State :=
  {| questions := questions s; currentQuestionIndex := currentQuestionIndex s;
     answers := answers s;
     mode := mode s; heap := heap s; timers := timers s; alerts := alerts s;
     startScreenHidden := startScreenHidden s;
     resultsScreenHidden := resultsScreenHidden s;
     questionText := questionText s; choiceButtons := choiceButtons s;
     feedbackHidden := feedbackHidden s; explanation := explanation s;
     progressItems := progressItems s; scoreDisplay := scoreDisplay s;
     reviewList := v |}.

Definition set_errorTag (v : TagSlot) (a : Answer) : Answer :=
  {| isCorrect := isCorrect a; selectedIndex := selectedIndex a;
     timestamp := timestamp a; errorTag := v |}.

Definition set_selected (v : option Tag) (it : ReviewItem) : ReviewItem :=
  {| r_question := r_question it; r_ans := r_ans it;
     r_isCorrect := r_isCorrect it; r_selected := v |}.

(** ** Environment

    What a handler reads from outside the program while it runs: the clock
    ([Date.now()]) and the successive results of [Math.random()]. *)

(** A draw of the shuffle, given as the fraction
    [r_num / (r_num + r_gap + 1)], which ranges over the rationals of
    [0, 1); [floorTimes] takes the floor of its exact product with the loop
    bound.  The code multiplies doubles, and the rounded product of a given
    double can have a floor one above that of the exact product.  What the
    code computes is [floorOfProduct] below; it stays under the bound
    ([floorOfProduct_in_range]), and every index under the bound is
    [floorTimes] of some fraction ([floorTimes_onto]), so the random sources
    of the model produce every sequence of indices the code can draw. *)
Record Rand := { r_num : nat; r_gap : nat }.

(** The index drawn for the fraction [r] and the bound [n]: the floor of
    their exact product. *)
Definition floorTimes (r : Rand) (n : nat) : nat :=
  ((r_num r * n) `div` (r_num r + r_gap r + 1))%nat.

Record Env := {
  now : Z;               (* Date.now() *)
  random : nat -> Rand   (* the k-th call of Math.random() in this handler *)
}.

(** ** Outcomes

    A handler either runs to its end or stops at an uncaught [TypeError];
    in both cases the mutations done so far stay. *)
Inductive Outcome :=
  | Done (s : State)
  | Threw (s : State).

Definition settle (o : Outcome) : State :=
  match o with Done s => s | Threw s => s end.

Definition threw (o : Outcome) : bool :=
  match o with Done _ => false | Threw _ => true end.

Definition andThen (o : Outcome) (f : State -> Outcome) : Outcome :=
  match o with Done s => f s | Threw s => Threw s end.

(** ** Reading the state *)

(** [state.questions[i]] for a number [i]; [None] is [undefined]. *)
Definition questionAt (s : State) (i : Z) : option Question :=
  if decide (0 <= i) then questions s !! Z.to_nat i else None.

(** The record object stored under a question id, if any. *)
Definition answerAt (s : State) (k : string) : option Answer :=
  answers s !! k ≫= λ l, heap s !! l.

(** The one key whose assignment sets the prototype of an object instead
    of adding a property. *)
Definition protoKey : string := "__proto__".

(** [Object.values(state.answers)]: the records held as own properties, that
    is all but one made the prototype (the count below does not depend on
    the order of enumeration). *)
Definition objectValues (s : State) : list Answer :=
  omap (λ kv, heap s !! kv.2) (map_to_list (delete protoKey (answers s))).

(** [Object.values(state.answers).filter(a => a.isCorrect).length] *)
Definition correctCount (s : State) : nat :=
  length (filter (λ a, isCorrect a = true) (objectValues s)).

(** ** The choice shuffle of renderQuestion *)

(** [[indices[i], indices[j]] = [indices[j], indices[i]]].  Both reads are
    in range whenever the loop below runs ([j <= i < length]); outside it
    JavaScript would store [undefined], which the list cannot hold, and the
    list is returned as it is. *)
Definition swap (i j : nat) (indices : list nat) : list nat :=
  match indices !! i, indices !! j with
  | Some x, Some y => <[j := x]> (<[i := y]> indices)
  | _, _ => indices
  end.

(** [for (let i = indices.length - 1; i > 0; i--)], the [k]-th iteration
    drawing the [k]-th random number. *)
Fixpoint shuffleFrom (rnd : nat -> Rand) (k i : nat) (indices : list nat)
  : list nat :=
  match i with
  | O => indices
  | S i' =>
      let j := floorTimes (rnd k) (i + 1) in
      shuffleFrom rnd (S k) i' (swap i j indices)
  end.

(** [q.choices.map((_, i) => i)] followed by the loop. *)
Definition shuffledIndices (rnd : nat -> Rand) (q : Question) : list nat :=
  let indices := seq 0 (length (q_choices q)) in
  shuffleFrom rnd 0 (length indices - 1) indices.

(** ** Handlers *)

(** updateProgressBar restyles every progress item from [state.answers];
    the styles are not kept in the model.  It reads
    [state.questions[idx].id] for every item, which throws when there are
    more items than questions. *)
Definition updateProgressBar (s : State) : Outcome :=
  if decide (progressItems s <= length (questions s))%nat then Done s
  else Threw s.

Definition renderExplanation (q : Question) (s : State) : State :=
  set_explanation (Some q) s.

(** [existingAns] is what the lookup of [q.id] finds; it is taken to be
    truthy exactly when that is an answer record, which is so for plain
    ids (see [plainIds]).  For an id naming a member of [Object.prototype]
    the lookup is truthy also without a record, and in PRACTICE mode the
    code then shows the feedback area; statements about the feedback area
    of a question without a record assume plain ids. *)
Definition renderQuestion (e : Env) (s : State) : Outcome :=
  match questionAt s (currentQuestionIndex s) with
  | None => Done s
  | Some q =>
      let s1 := set_questionText (Some q) s in
      let s2 := set_choiceButtons (shuffledIndices (random e) q) s1 in
      let s3 := set_feedbackHidden true s2 in
      let s4 :=
        match mode s3, answers s3 !! q_id q with
        | practice, Some _ => set_feedbackHidden false (renderExplanation q s3)
        | _, _ => s3
        end in
      updateProgressBar s4
  end.

Definition renderProgressBar (s : State) : Outcome :=
  updateProgressBar (set_progressItems (length (questions s)) s).

Definition startGame (m : Mode) (e : Env) (s : State) : Outcome :=
  let s1 := set_answers ∅ (set_currentQuestionIndex 0 (set_mode m s)) in
  let s2 := set_resultsScreenHidden true (set_startScreenHidden true s1) in
  andThen (renderQuestion e s2) renderProgressBar.

(** One entry of the review list.  [r_ans] is the record the lookup of
    [q.id] finds, bound to [ans] in the closures of the tag buttons.  The
    verdict [ans && ans.isCorrect] is falsy whenever the lookup finds no
    record, also for an id naming a member of [Object.prototype] (whose
    [isCorrect] is [undefined]); for such an id, though, [ans] is that
    member and not [undefined], and a tag click writes its [errorTag].
    With plain ids [ans] is a record or [undefined], as here. *)
Definition reviewItem (s : State) (q : Question) : ReviewItem :=
  let ans := answers s !! q_id q in
  let obj := ans ≫= λ l, heap s !! l in
  {| r_question := q;
     r_ans := ans;
     r_isCorrect := from_option isCorrect false obj;
     r_selected := obj ≫= λ a, tag_of (errorTag a) |}.

Definition showResults (s : State) : State :=
  let s1 := set_resultsScreenHidden false s in
  let total := length (questions s1) in
  let s2 := set_scoreDisplay (Some (correctCount s1, total)) s1 in
  set_reviewList (reviewItem s2 <$> questions s2) s2.

Definition finishGame (s : State) : State :=
  match mode s with
  | test => showResults s
  | practice => set_startScreenHidden false (set_alerts (S (alerts s)) s)
  end.

Definition nextQuestion (e : Env) (s : State) : Outcome :=
  andThen (updateProgressBar s) (λ s,
    if decide (currentQuestionIndex s < Z.of_nat (length (questions s)) - 1)
    then renderQuestion e
           (set_currentQuestionIndex (currentQuestionIndex s + 1) s)
    else Done (finishGame s)).

(** [setTimeout(f, delay)] *)
Definition setTimeout (task : Task) (delay : Z) (e : Env) (s : State) : State :=
  set_timers (timers s ++ [(now e + delay, task)]) s.

(** The overlay element itself is not kept; what matters is the callback
    left pending for 500 ms. *)
Definition showFeedbackOverlay (q : Question) (e : Env) (s : State) : State :=
  setTimeout (OverlayTimeout q) 500 e s.

(** The assignment [state.answers[q.id] = {...}] makes the lookup of
    [q.id] find the new object, for every id: as an own property, or, for
    the id ["__proto__"], as the prototype (see [objectValues]). *)
Definition handleChoice (selectedIndex : Z) (isConfirmed : bool) (e : Env)
    (s : State) : Outcome :=
  if negb isConfirmed then Done s
  else
    match questionAt s (currentQuestionIndex s) with
    | None => Threw s (* q.correctIndex of undefined *)
    | Some q =>
        let isCorrect := bool_decide (selectedIndex = q_correctIndex q) in
        let obj := {| isCorrect := isCorrect; selectedIndex := selectedIndex;
                      timestamp := now e; errorTag := tag_undefined |} in
        let l := length (heap s) in
        let s1 := set_answers (<[q_id q := l]> (answers s))
                    (set_heap (heap s ++ [obj]) s) in
        match mode s1 with
        | practice => Done (showFeedbackOverlay q e s1)
        | test => nextQuestion e s1
        end
    end.

(** The [onclick] of the progress item numbered [idx]. *)
Definition progressClick (idx : nat) (e : Env) (s : State) : Outcome :=
  match mode s with
  | practice => renderQuestion e (set_currentQuestionIndex (Z.of_nat idx) s)
  | test =>
      if decide (Z.of_nat idx = currentQuestionIndex s - 1)
      then renderQuestion e (set_currentQuestionIndex (Z.of_nat idx) s)
      else Done s
  end.

(** The [onclick] of the button for [tag] under the [k]-th review item. *)
Definition tagClick (k : nat) (tag : Tag) (s : State) : Outcome :=
  match reviewList s !! k with
  | None => Done s
  | Some it =>
      if r_isCorrect it then Done s
      else
        let s1 :=
          match r_ans it with
          | None => s
          | Some l =>
              match heap s !! l with
              | None => s
              | Some a =>
                  let v := if slot_equals (errorTag a) tag then tag_null
                           else tag_is tag in
                  set_heap (<[l := set_errorTag v a]> (heap s)) s
              end
          end in
        let sel :=
          match r_ans it ≫= (λ l, heap s1 !! l) with
          | Some a => if slot_truthy (errorTag a) then Some tag else None
          | None => None
          end in
        Done (set_reviewList (<[k := set_selected sel it]> (reviewList s1)) s1)
  end.

(** [dom.btnRestart.onclick] *)
Definition restartClick (s : State) : Outcome :=
  Done (set_startScreenHidden false (set_resultsScreenHidden true s)).

(** Running a timer callback. *)
Definition runTask (task : Task) (e : Env) (s : State) : Outcome :=
  match task with
  | OverlayTimeout q =>
      let s1 := set_feedbackHidden false (renderExplanation q s) in
      Done (setTimeout NextTimeout 200 e s1)
  | NextTimeout => nextQuestion e s
  end.

Definition fireTimer (k : nat) (e : Env) (s : State) : Outcome :=
  match timers s !! k with
  | None => Done s
  | Some (_, task) => runTask task e (set_timers (delete k (timers s)) s)
  end.

(** ** The event loop *)

Inductive Action :=
  | BtnPractice
  | BtnTest
  | BtnRestart
  | ChoiceClick (pos : nat)
  | ChoiceDblClick (pos : nat)
  | ProgressClick (idx : nat)
  | TagClick (item : nat) (tag : Tag)
  | TimerFires (k : nat).

(** An action on an element that is not in the page reaches no handler. *)
Definition dispatch (a : Action) (e : Env) (s : State) : Outcome :=
  match a with
  | BtnPractice => startGame practice e s
  | BtnTest => startGame test e s
  | BtnRestart => restartClick s
  | ChoiceClick pos =>
      match choiceButtons s !! pos with
      | Some originalIndex => handleChoice (Z.of_nat originalIndex) false e s
      | None => Done s
      end
  | ChoiceDblClick pos =>
      match choiceButtons s !! pos with
      | Some originalIndex => handleChoice (Z.of_nat originalIndex) true e s
      | None => Done s
      end
  | ProgressClick idx =>
      if decide (idx < progressItems s)%nat then progressClick idx e s
      else Done s
  | TagClick item tag => tagClick item tag s
  | TimerFires k => fireTimer k e s
  end.

Definition step (s : State) (ev : Env * Action) : State :=
  settle (dispatch ev.2 ev.1 s).

Definition run (s : State) (evs : list (Env * Action)) : State :=
  foldl step s evs.

(** The page once [init] has loaded [qs]: the start screen is up, the
    results screen is hidden, nothing is rendered yet. *)
Definition initialState (qs : list Question) : State :=
  {| questions := qs; currentQuestionIndex := 0; answers := ∅;
     mode := practice; heap := []; timers := []; alerts := 0;
     startScreenHidden := false; resultsScreenHidden := true;
     questionText := None; choiceButtons := []; feedbackHidden := true;
     explanation := None; progressItems := 0; scoreDisplay := None;
     reviewList := [] |}.

(** ** Scheduling assumptions for concrete traces

    The handlers above run whenever they are called.  Which calls a browser
    can actually make is a matter of the page: an element inside a screen
    carrying the [hidden] class cannot be clicked, a start or results screen
    that is up covers the quiz, and a timer fires no earlier than its due
    time, earliest first, ties in order of registration.  General theorems
    below do not depend on any of this (they hold for every sequence of
    actions); the concrete traces that refute a claim are checked against
    it. *)

Definition due_first (k : nat) (e : Env) (ts : list (Z * Task)) : bool :=
  match ts !! k with
  | None => false
  | Some (d, _) =>
      bool_decide (d <= now e)
      && forallb (λ x, bool_decide (d < x.1)) (take k ts)
      && forallb (λ x, bool_decide (d <= x.1)) (drop (S k) ts)
  end.

Definition enabled (a : Action) (e : Env) (s : State) : bool :=
  match a with
  | BtnPractice | BtnTest => negb (startScreenHidden s)
  | BtnRestart => negb (resultsScreenHidden s)
  | ChoiceClick pos | ChoiceDblClick pos =>
      startScreenHidden s && resultsScreenHidden s
      && bool_decide (pos < length (choiceButtons s))%nat
  | ProgressClick idx =>
      startScreenHidden s && resultsScreenHidden s
      && bool_decide (idx < progressItems s)%nat
  | TagClick item _ =>
      negb (resultsScreenHidden s)
      && match reviewList s !! item with
         | Some it => negb (r_isCorrect it)
         | None => false
         end
  | TimerFires k => due_first k e (timers s)
  end.

(** Every action of the trace is enabled when it happens and the clock
    never runs backwards. *)
Fixpoint feasible (t0 : Z) (s : State) (evs : list (Env * Action)) : bool :=
  match evs with
  | [] => true
  | ev :: rest =>
      bool_decide (t0 <= now ev.1)
      && enabled ev.2 ev.1 s
      && feasible (now ev.1) (step s ev) rest
  end.

(** ** Sample data for the concrete statements *)

Definition sampleQuestion (name : string) (n : nat) (c : Z) : Question :=
  {| q_id := name; q_prompt := name; q_choices := replicate n name;
     q_correctIndex := c; q_answerLatex := None; q_point := None;
     q_figure := None |}.

Definition qA : Question := sampleQuestion "a" 4 1.
Definition qB : Question := sampleQuestion "b" 3 0.
Definition qC : Question := sampleQuestion "c" 2 1.

(** A question whose id is the name of the prototype accessor. *)
Definition qP : Question := sampleQuestion "__proto__" 2 1.

(** A clock reading [t] and a random source that always returns 0. *)
Definition at_ (t : Z) : Env :=
  {| now := t; random := λ _, {| r_num := 0; r_gap := 0 |} |}.

(** The same clock with a source that always returns 1/2. *)
Definition at_half (t : Z) : Env :=
  {| now := t; random := λ _, {| r_num := 1; r_gap := 0 |} |}.

(** ** Notions used in the statements *)

(** The progress bar has no more items than there are questions, the index
    is a valid position (or 0 when there is nothing to index), and choice
    buttons exist only when there are questions. *)
Record Inv (s : State) : Prop := {
  inv_items : (progressItems s <= length (questions s))%nat;
  inv_index_lo : 0 <= currentQuestionIndex s;
  inv_index_hi : currentQuestionIndex s < Z.of_nat (length (questions s))
                 \/ currentQuestionIndex s = 0;
  inv_buttons : questions s = [] -> choiceButtons s = []
}.

Ltac inv_fields := constructor; simpl; try done; try lia.

(** The session data proper: everything a submission or the score reads. *)
Definition same_session (s s' : State) : Prop :=
  questions s' = questions s /\ answers s' = answers s /\ heap s' = heap s
  /\ mode s' = mode s /\ timers s' = timers s.

(** The object a confirmed submission creates. *)
Definition submitted (sel : Z) (q : Question) (e : Env) : Answer :=
  {| isCorrect := bool_decide (sel = q_correctIndex q);
     selectedIndex := sel;
     timestamp := now e;
     errorTag := tag_undefined |}.

(** The answers mapping as a map from question id to the record a lookup
    finds. *)
Definition records (s : State) : gmap string Answer :=
  omap (λ l, heap s !! l) (answers s).

(** The own keys of [state.answers] ([Object.keys]). *)
Definition ownKeys (s : State) : gset string :=
  dom (delete protoKey (answers s)).

(** The records under own keys. *)
Definition ownRecords (s : State) : gmap string Answer :=
  omap (λ l, heap s !! l) (delete protoKey (answers s)).

(** The property names every object inherits from [Object.prototype]. *)
Definition prototypeNames : list string :=
  ["__proto__"; "constructor"; "hasOwnProperty"; "isPrototypeOf";
   "propertyIsEnumerable"; "toLocaleString"; "toString"; "valueOf";
   "__defineGetter__"; "__defineSetter__"; "__lookupGetter__";
   "__lookupSetter__"]%string.

(** No question id is one of these names.  Then [state.answers] keeps
    [Object.prototype] as its prototype, nothing is ever written to
    [Object.prototype] or its members, and a lookup of a question id yields
    an answer record or [undefined]. *)
Definition plainIds (qs : list Question) : Prop :=
  Forall (λ q, q_id q ∉ prototypeNames) qs.


(** ** The product of doubles

    A double in [0, 1) is [m / 2^p] for integers [0 <= m < 2^53] and
    [53 <= p]; the loop bound [n] is an integer.  The product is rounded to
    the nearest double, ties to the even significand, before
    [Math.floor]. *)

(** The rounded product of [m / 2^p] and [n], as a significand and the
    number of low bits dropped: its value is [sig * 2^dropped / 2^p]. *)
Definition roundedProduct (m n : Z) : Z * Z :=
  let x := m * n in
  let len := if decide (x = 0) then 0 else Z.log2 x + 1 in
  if decide (len <= 53) then (x, 0)
  else
    let d := len - 53 in
    let q := x / 2 ^ d in
    let r := x mod 2 ^ d in
    let half := 2 ^ (d - 1) in
    if decide (r < half) then (q, d)
    else if decide (half < r) then (q + 1, d)
    else if Z.even q then (q, d) else (q + 1, d).

(** [Math.floor(r * n)] for the double [r = m / 2^p]. *)
Definition floorOfProduct (m p n : Z) : Z :=
  let '(sig, d) := roundedProduct m n in
  (sig * 2 ^ d) / 2 ^ p.


(** The value a tag click writes into the record. *)
Definition toggled (a : Answer) (tag : Tag) : Answer :=
  set_errorTag (if slot_equals (errorTag a) tag then tag_null else tag_is tag) a.

(** A feedback sequence is pending for [q] while its overlay callback or the
    advance it schedules has not fired.  The code keeps no such notion; it
    is read off the timer list. *)
Definition pendingSequences (s : State) : nat := length (timers s).

(** Whether every exchange of the loop reads two existing positions. *)
Fixpoint readsInRange (rnd : nat -> Rand) (k i : nat) (indices : list nat)
  : bool :=
  match i with
  | O => true
  | S i' =>
      let j := floorTimes (rnd k) (i + 1) in
      bool_decide (i < length indices)%nat
      && bool_decide (j < length indices)%nat
      && readsInRange rnd (S k) i' (swap i j indices)
  end.

(** ** Sample states *)

(** A TEST session standing at question "a" whose answers mapping already
    holds a tagged record for it, used to exercise resubmission. *)
Definition resubmitState : State :=
  set_heap [{| isCorrect := false; selectedIndex := 0; timestamp := 5;
               errorTag := tag_is Misread |}]
    (set_answers {[ "a"%string := 0%nat ]}
       (run (initialState [qA; qB]) [(at_ 0, BtnTest)])).

(** A finished TEST round on one question, answered incorrectly: the results
    screen is up with one review item carrying tag buttons. *)
Definition reviewedState : State :=
  run (initialState [qA]) [(at_ 0, BtnTest); (at_ 10, ChoiceDblClick 1)].

(** A PRACTICE session on three questions in which the first question has
    just been confirmed once: one feedback sequence is pending. *)
Definition pendingState : State :=
  run (initialState [qA; qB; qC])
    [(at_ 0, BtnPractice); (at_ 10, ChoiceDblClick 0)].

(** ** Notions used in the further statements *)

(** What renderQuestion may change: the question area, the choice buttons
    and the feedback area; everything else is left as it was. *)
Definition page_only (s s' : State) : Prop :=
  questions s' = questions s
  /\ currentQuestionIndex s' = currentQuestionIndex s
  /\ answers s' = answers s /\ mode s' = mode s /\ heap s' = heap s
  /\ timers s' = timers s /\ alerts s' = alerts s
  /\ startScreenHidden s' = startScreenHidden s
  /\ resultsScreenHidden s' = resultsScreenHidden s
  /\ progressItems s' = progressItems s
  /\ scoreDisplay s' = scoreDisplay s
  /\ reviewList s' = reviewList s.

(** Two record objects that agree on everything a submission wrote. *)
Definition same_submission (a a' : Answer) : Prop :=
  isCorrect a' = isCorrect a /\ selectedIndex a' = selectedIndex a
  /\ timestamp a' = timestamp a.

(** Every key of [state.answers] is the id of a loaded question. *)
Definition keys_are_ids (s : State) : Prop :=
  forall k, is_Some (answers s !! k) ->
    exists q, q ∈ questions s /\ q_id q = k.

(** The review entries shown as correct. *)
Definition shownCorrect (l : list ReviewItem) : nat :=
  length (filter (λ it, r_isCorrect it = true) l).

(** A run in which action [a] never occurs. *)
Definition without (a : Action) (evs : list (Env * Action)) : Prop :=
  Forall (λ ev, ev.2 <> a) evs.

(** The state of a run that has been in TEST mode (if in any) since the page
    was loaded: nothing is pending, no feedback was ever shown. *)
Record TestOnly (s : State) : Prop := {
  to_mode : mode s = test \/ (choiceButtons s = [] /\ progressItems s = 0%nat);
  to_timers : timers s = [];
  to_feedback : feedbackHidden s = true;
  to_explanation : explanation s = None;
  to_alerts : alerts s = 0%nat
}.

(** In such a run every question before the current one has been answered,
    and all of them once the results are up. *)
Record Answered (s : State) : Prop := {
  an_index : 0 <= currentQuestionIndex s;
  an_before : forall i q, Z.of_nat i < currentQuestionIndex s ->
                questions s !! i = Some q -> is_Some (answers s !! q_id q);
  an_results : resultsScreenHidden s = false ->
               forall q, q ∈ questions s -> is_Some (answers s !! q_id q)
}.

(** The state of a run in which no TEST game was ever started. *)
Record PracticeOnly (s : State) : Prop := {
  po_mode : mode s = practice;
  po_results : resultsScreenHidden s = true;
  po_score : scoreDisplay s = None;
  po_review : reviewList s = []
}.

(** Every record referred to by [state.answers] has been allocated. *)
Definition answers_allocated (s : State) : Prop :=
  forall k l, answers s !! k = Some l -> (l < length (heap s))%nat.

(** ** renderMath

    Texts are sequences of UTF-16 code units; [None] stands for a text that
    is [undefined] or [null] (an absent [answerLatex], say).  The replacer
    receives each match of [/\$([^$]+)\$/g]: a dollar sign, one or more
    code units other than the dollar sign, a dollar sign.  Matches are found
    from left to right and do not overlap, so a dollar sign directly
    followed by another one does not open a formula but the second one may.
    [katex] is [katex.renderToString] with [throwOnError: false]; [None]
    is an exception, which the replacer catches. *)
Definition dollar : N := 36%N.

(** The replacer: the rendering of the formula, or the match itself when the
    renderer throws. *)
Definition replacer (katex : list N -> option (list N)) (formula : list N)
  : list N :=
  match katex formula with
  | Some html => html
  | None => dollar :: formula ++ [dollar]
  end.

(** The scan of [String.prototype.replace].  [opened] is [Some f] when a
    dollar sign has been read and [f] are the code units read since. *)
Fixpoint replaceFormulas (katex : list N -> option (list N))
    (opened : option (list N)) (text : list N) : list N :=
  match text with
  | [] =>
      match opened with
      | None => []
      | Some f => dollar :: f
      end
  | c :: rest =>
      match opened with
      | None =>
          if decide (c = dollar) then replaceFormulas katex (Some []) rest
          else c :: replaceFormulas katex None rest
      | Some f =>
          if decide (c = dollar) then
            match f with
            | [] => dollar :: replaceFormulas katex (Some []) rest
            | _ :: _ => replacer katex f ++ replaceFormulas katex None rest
            end
          else replaceFormulas katex (Some (f ++ [c])) rest
      end
  end.

Definition renderMath (katex : list N -> option (list N))
    (text : option (list N)) : list N :=
  match text with
  | None => []
  | Some [] => []
  | Some t => replaceFormulas katex None t
  end.

(** ** The look of a progress item

    What updateProgressBar gives the item numbered [idx]: whether it is the
    active one, the [correct] / [incorrect] class if any, and whether it
    carries the blue "answered" inline style.  The class name is rebuilt on
    every call; the inline style is only written in TEST mode (set) and for
    unanswered questions (cleared), so in PRACTICE mode an answered item
    keeps the style it had ([wasBlue]).  [None] is the [TypeError] of
    reading [state.questions[idx].id] when there is no such question.
    [ans] is taken to be truthy exactly when the lookup finds a record,
    which is so for plain ids (see [plainIds]); for an id naming a member
    of [Object.prototype] the item is styled as answered also without a
    record. *)
Record ItemLook := {
  look_active : bool;
  look_verdict : option bool;
  look_blue : bool
}.

Definition itemLook (s : State) (idx : nat) (wasBlue : bool)
  : option ItemLook :=
  match questions s !! idx with
  | None => None
  | Some q =>
      let active := bool_decide (Z.of_nat idx = currentQuestionIndex s) in
      match answers s !! q_id q with
      | Some l =>
          match mode s with
          | practice =>
              Some {| look_active := active;
                      look_verdict :=
                        Some (from_option isCorrect false (heap s !! l));
                      look_blue := wasBlue |}
          | test =>
              Some {| look_active := active; look_verdict := None;
                      look_blue := true |}
          end
      | None =>
          Some {| look_active := active; look_verdict := None;
                  look_blue := false |}
      end
  end.

(** The progress bar is empty or has one item per question. *)
Definition items_all_or_none (s : State) : Prop :=
  progressItems s = 0%nat \/ progressItems s = length (questions s).

(** ** The sketch surface

    [state.drawing], the closure variable [isPainting] of setupCanvas, the
    settings of the 2D context with the operations issued on it, and the
    classes and text of the tool buttons.  The fields [isDrawing],
    [history] and [historyStep] of [state.drawing] are never read or
    written and are left out; [lineCap] is set to ['round'] before every
    stroke and is not kept.  The coordinates of pointer events and of the
    bounding rectangle are doubles in the browser; they are taken as
    integers here, and no statement depends on their values. *)
Inductive Tool := Pen | Eraser.
Inductive Color := Black | Red.
Inductive Composite := SourceOver | DestinationOut.

Global Instance Tool_eq_dec : EqDecision Tool.
Proof. solve_decision. Defined.

Global Instance Color_eq_dec : EqDecision Color.
Proof. solve_decision. Defined.

Record Drawing := {
  d_tool : Tool;
  d_color : Color;
  d_enabled : bool
}.

(** What draw reads from a mouse event or a touch, and from
    [getBoundingClientRect()]. *)
Record Pointer := {
  clientX : Z; clientY : Z;
  pageX : Z; pageY : Z;
  rectLeft : Z; rectTop : Z
}.

Inductive CanvasOp :=
  | SetSize (w h : Z)   (* canvas.width = w; canvas.height = h *)
  | ClearRect           (* clearRect(0, 0, width, height) *)
  | BeginPath
  | LineTo (x y : Z)
  | MoveTo (x y : Z)
  | Stroke (width : Z) (op : Composite) (style : option Color).

Record Context2D := {
  lineWidth : Z;
  composite : Composite;
  strokeStyle : option Color;  (* [None]: the context's default *)
  ops : list CanvasOp
}.

Record ToolBar := {
  penBlackActive : bool;
  penRedActive : bool;
  eraserActive : bool;
  toggleActive : bool;
  toggleText : option bool  (* [Some b]: 'Draw: ON' / 'Draw: OFF' *)
}.

Record Sketch := {
  drawing : Drawing;
  isPainting : bool;
  ctx : Context2D;
  toolbar : ToolBar;
  undoAlerts : nat
}.

Definition issue (new : list CanvasOp) (c : Context2D) : Context2D :=
  {| lineWidth := lineWidth c; composite := composite c;
     strokeStyle := strokeStyle c; ops := ops c ++ new |}.

Definition set_ctx (c : Context2D) (s : Sketch) : Sketch :=
  {| drawing := drawing s; isPainting := isPainting s; ctx := c;
     toolbar := toolbar s; undoAlerts := undoAlerts s |}.

Definition set_isPainting (b : bool) (s : Sketch) : Sketch :=
  {| drawing := drawing s; isPainting := b; ctx := ctx s;
     toolbar := toolbar s; undoAlerts := undoAlerts s |}.

Definition set_drawing (d : Drawing) (s : Sketch) : Sketch :=
  {| drawing := d; isPainting := isPainting s; ctx := ctx s;
     toolbar := toolbar s; undoAlerts := undoAlerts s |}.

Definition set_toolbar (t : ToolBar) (s : Sketch) : Sketch :=
  {| drawing := drawing s; isPainting := isPainting s; ctx := ctx s;
     toolbar := t; undoAlerts := undoAlerts s |}.

(** [a || b] on numbers: [a] unless it is 0. *)
Definition orElse (a b : Z) : Z := if decide (a = 0) then b else a.

(** Assigning [canvas.width] clears the bitmap and puts the context back
    to its defaults. *)
Definition resize (w h : Z) (s : Sketch) : Sketch :=
  set_ctx {| lineWidth := 1; composite := SourceOver; strokeStyle := None;
             ops := ops (ctx s) ++ [SetSize w h] |} s.

Definition draw (p : Pointer) (s : Sketch) : Sketch :=
  if negb (isPainting s) || negb (d_enabled (drawing s)) then s
  else
    let x := orElse (clientX p) (pageX p) - rectLeft p in
    let y := orElse (clientY p) (pageY p) - rectTop p in
    let w := if decide (d_tool (drawing s) = Eraser) then 20 else 3 in
    let c :=
      match d_tool (drawing s) with
      | Eraser =>
          {| lineWidth := w; composite := DestinationOut;
             strokeStyle := strokeStyle (ctx s); ops := ops (ctx s) |}
      | Pen =>
          {| lineWidth := w; composite := SourceOver;
             strokeStyle := Some (d_color (drawing s)); ops := ops (ctx s) |}
      end in
    set_ctx
      (issue [LineTo x y; Stroke (lineWidth c) (composite c) (strokeStyle c);
              BeginPath; MoveTo x y] c) s.

Definition startPosition (p : Pointer) (s : Sketch) : Sketch :=
  if negb (d_enabled (drawing s)) then s
  else draw p (set_isPainting true s).

Definition finishedPosition (s : Sketch) : Sketch :=
  set_ctx (issue [BeginPath] (ctx s)) (set_isPainting false s).

(** [window.clearCanvas] *)
Definition clearCanvas (s : Sketch) : Sketch :=
  set_ctx (issue [ClearRect] (ctx s)) s.

Inductive ToolButton := ToolPenBlack | ToolPenRed | ToolEraser.

Global Instance ToolButton_eq_dec : EqDecision ToolButton.
Proof. solve_decision. Defined.

Definition updateToolUI (activeId : ToolButton) (s : Sketch) : Sketch :=
  set_toolbar
    {| penBlackActive := bool_decide (ToolPenBlack = activeId);
       penRedActive := bool_decide (ToolPenRed = activeId);
       eraserActive := bool_decide (ToolEraser = activeId);
       toggleActive := toggleActive (toolbar s);
       toggleText := toggleText (toolbar s) |} s.

Inductive SketchEvent :=
  | PointerDown (p : Pointer)   (* mousedown, touchstart *)
  | PointerUp                   (* mouseup, touchend *)
  | PointerMove (p : Pointer)   (* mousemove, touchmove *)
  | WindowResize (w h : Z)
  | ClickPenBlack
  | ClickPenRed
  | ClickEraser
  | ClickClear                  (* also every call of window.clearCanvas *)
  | ClickUndo
  | ClickToggle.

Definition sketchStep (s : Sketch) (ev : SketchEvent) : Sketch :=
  match ev with
  | PointerDown p => startPosition p s
  | PointerUp => finishedPosition s
  | PointerMove p => draw p s
  | WindowResize w h => resize w h s
  | ClickPenBlack =>
      updateToolUI ToolPenBlack
        (set_drawing {| d_tool := Pen; d_color := Black;
                        d_enabled := d_enabled (drawing s) |} s)
  | ClickPenRed =>
      updateToolUI ToolPenRed
        (set_drawing {| d_tool := Pen; d_color := Red;
                        d_enabled := d_enabled (drawing s) |} s)
  | ClickEraser =>
      updateToolUI ToolEraser
        (set_drawing {| d_tool := Eraser; d_color := d_color (drawing s);
                        d_enabled := d_enabled (drawing s) |} s)
  | ClickClear => clearCanvas s
  | ClickUndo =>
      {| drawing := drawing s; isPainting := isPainting s; ctx := ctx s;
         toolbar := toolbar s; undoAlerts := S (undoAlerts s) |}
  | ClickToggle =>
      let on := negb (d_enabled (drawing s)) in
      set_toolbar
        {| penBlackActive := penBlackActive (toolbar s);
           penRedActive := penRedActive (toolbar s);
           eraserActive := eraserActive (toolbar s);
           toggleActive := negb (toggleActive (toolbar s));
           toggleText := Some on |}
        (set_drawing {| d_tool := d_tool (drawing s);
                        d_color := d_color (drawing s);
                        d_enabled := on |} s)
  end.

Definition sketchRun (s : Sketch) (evs : list SketchEvent) : Sketch :=
  foldl sketchStep s evs.

(** The operations that put ink on (or take it off) the canvas. *)
Definition isInk (op : CanvasOp) : bool :=
  match op with
  | LineTo _ _ | Stroke _ _ _ => true
  | _ => false
  end.

Definition ink (s : Sketch) : list CanvasOp :=
  filter (λ op, isInk op = true) (ops (ctx s)).

Definition isToolClick (ev : SketchEvent) : bool :=
  match ev with
  | ClickPenBlack | ClickPenRed | ClickEraser => true
  | _ => false
  end.

(** The tool buttons show the tool in [state.drawing]. *)
Definition toolShown (s : Sketch) : Prop :=
  eraserActive (toolbar s) = bool_decide (d_tool (drawing s) = Eraser)
  /\ penBlackActive (toolbar s)
     = bool_decide (d_tool (drawing s) = Pen /\ d_color (drawing s) = Black)
  /\ penRedActive (toolbar s)
     = bool_decide (d_tool (drawing s) = Pen /\ d_color (drawing s) = Red).

(** The sketch surface when the page has loaded: [state.drawing] as
    initialised, a fresh context sized by the first [resize()]; the classes
    of the buttons are those of the markup. *)
Definition initialSketch (w h : Z) (bar : ToolBar) : Sketch :=
  resize w h
    {| drawing := {| d_tool := Pen; d_color := Black; d_enabled := true |};
       isPainting := false;
       ctx := {| lineWidth := 1; composite := SourceOver; strokeStyle := None;
                 ops := [] |};
       toolbar := bar; undoAlerts := 0 |}.

(** * Basic facts *)

Lemma questionAt_range s i q :
  questionAt s i = Some q -> 0 <= i < Z.of_nat (length (questions s)).
Proof.
  unfold questionAt. case_decide; [|done].
  intros Hl%lookup_lt_Some. lia.
Qed.

Lemma questionAt_nonempty s i q : questionAt s i = Some q -> questions s <> [].
Proof.
  intros Hq%questionAt_range Hnil. rewrite Hnil in Hq. simpl in Hq. lia.
Qed.

Lemma questionAt_is_Some s i :
  0 <= i < Z.of_nat (length (questions s)) -> is_Some (questionAt s i).
Proof.
  intros Hi. unfold questionAt. rewrite decide_True by lia.
  apply lookup_lt_is_Some. lia.
Qed.

(** ** What the rendering functions leave alone *)

Lemma same_session_refl s : same_session s s.
Proof. by repeat split. Qed.

Lemma same_session_trans s1 s2 s3 :
  same_session s1 s2 -> same_session s2 s3 -> same_session s1 s3.
Proof.
  intros (?&?&?&?&?) (?&?&?&?&?). repeat split; congruence.
Qed.

Lemma updateProgressBar_settle s : settle (updateProgressBar s) = s.
Proof. unfold updateProgressBar. by case_decide. Qed.

Lemma renderQuestion_session e s : same_session s (settle (renderQuestion e s)).
Proof.
  unfold renderQuestion. destruct (questionAt _ _) as [q|]; [|apply same_session_refl].
  rewrite updateProgressBar_settle. simpl.
  destruct (mode s), (answers s !! q_id q); by repeat split.
Qed.

Lemma renderQuestion_index e s :
  currentQuestionIndex (settle (renderQuestion e s)) = currentQuestionIndex s.
Proof.
  unfold renderQuestion. destruct (questionAt _ _) as [q|]; [|done].
  rewrite updateProgressBar_settle. simpl.
  by destruct (mode s), (answers s !! q_id q).
Qed.

Lemma renderQuestion_items e s :
  progressItems (settle (renderQuestion e s)) = progressItems s.
Proof.
  unfold renderQuestion. destruct (questionAt _ _) as [q|]; [|done].
  rewrite updateProgressBar_settle. simpl.
  by destruct (mode s), (answers s !! q_id q).
Qed.

Lemma correctCount_session s s' :
  same_session s s' -> correctCount s' = correctCount s.
Proof.
  intros (_&Ha&Hh&_). unfold correctCount, objectValues. by rewrite Ha, Hh.
Qed.

Lemma showResults_session s : same_session s (showResults s).
Proof. by repeat split. Qed.

Lemma finishGame_session s : same_session s (finishGame s).
Proof. unfold finishGame. destruct (mode s); by repeat split. Qed.

Lemma finishGame_index s :
  currentQuestionIndex (finishGame s) = currentQuestionIndex s.
Proof. unfold finishGame. by destruct (mode s). Qed.

Lemma finishGame_items s : progressItems (finishGame s) = progressItems s.
Proof. unfold finishGame. by destruct (mode s). Qed.

Lemma nextQuestion_session e s : same_session s (settle (nextQuestion e s)).
Proof.
  unfold nextQuestion, updateProgressBar.
  case_decide; simpl; [|apply same_session_refl].
  case_decide; simpl; [|apply finishGame_session].
  eapply same_session_trans; [|apply renderQuestion_session]. by repeat split.
Qed.

Lemma nextQuestion_items e s :
  progressItems (settle (nextQuestion e s)) = progressItems s.
Proof.
  unfold nextQuestion, updateProgressBar.
  case_decide; simpl; [|done].
  case_decide; simpl; [|apply finishGame_items].
  by rewrite renderQuestion_items.
Qed.

(** * The invariant of the event loop *)

Lemma initialState_Inv qs : Inv (initialState qs).
Proof. inv_fields. Qed.

Lemma Inv_questionAt s :
  Inv s -> questions s <> [] ->
  is_Some (questionAt s (currentQuestionIndex s)).
Proof.
  intros [_ Hlo Hhi _] Hne. apply questionAt_is_Some.
  destruct (questions s); [done|]. simpl in *. lia.
Qed.

Lemma updateProgressBar_ok s :
  (progressItems s <= length (questions s))%nat -> updateProgressBar s = Done s.
Proof. intros. unfold updateProgressBar. by rewrite decide_True. Qed.

Lemma renderQuestion_Inv e s :
  Inv s ->
  Inv (settle (renderQuestion e s)) /\ threw (renderQuestion e s) = false.
Proof.
  intros [Hi Hlo Hhi Hb]. unfold renderQuestion.
  destruct (questionAt s (currentQuestionIndex s)) as [q|] eqn:Hq.
  - pose proof (questionAt_nonempty _ _ _ Hq) as Hne.
    rewrite updateProgressBar_ok
      by (simpl; destruct (mode s), (answers s !! q_id q); done).
    split; [|done]. simpl.
    destruct (mode s), (answers s !! q_id q); inv_fields.
  - split; [|done]. by constructor.
Qed.

Lemma renderProgressBar_Inv s :
  Inv s ->
  Inv (settle (renderProgressBar s)) /\ threw (renderProgressBar s) = false.
Proof.
  intros [Hi Hlo Hhi Hb]. unfold renderProgressBar.
  rewrite updateProgressBar_ok by (simpl; lia).
  split; [|done]. inv_fields.
Qed.

Lemma andThen_Inv o f :
  Inv (settle o) /\ threw o = false ->
  (forall s, Inv s -> Inv (settle (f s)) /\ threw (f s) = false) ->
  Inv (settle (andThen o f)) /\ threw (andThen o f) = false.
Proof. intros [Ho Ht] Hf. destruct o; [|done]. by apply Hf. Qed.

Lemma startGame_Inv m e s :
  Inv s -> Inv (settle (startGame m e s)) /\ threw (startGame m e s) = false.
Proof.
  intros [Hi Hlo Hhi Hb]. unfold startGame.
  apply andThen_Inv; [|apply renderProgressBar_Inv].
  apply renderQuestion_Inv. inv_fields.
Qed.

Lemma finishGame_Inv s : Inv s -> Inv (finishGame s).
Proof.
  intros [Hi Hlo Hhi Hb]. unfold finishGame. destruct (mode s); inv_fields.
Qed.

Lemma nextQuestion_Inv e s :
  Inv s -> Inv (settle (nextQuestion e s)) /\ threw (nextQuestion e s) = false.
Proof.
  intros HI. pose proof HI as [Hi Hlo Hhi Hb]. unfold nextQuestion.
  rewrite updateProgressBar_ok by done. simpl.
  case_decide as Hlt.
  - apply renderQuestion_Inv. inv_fields.
  - split; [|done]. by apply finishGame_Inv.
Qed.

Lemma handleChoice_Inv sel c e s :
  Inv s -> (c = true -> questions s <> []) ->
  Inv (settle (handleChoice sel c e s)) /\ threw (handleChoice sel c e s) = false.
Proof.
  intros HI Hne. unfold handleChoice. destruct c; simpl; [|done].
  destruct (Inv_questionAt s HI (Hne eq_refl)) as [q Hq]. rewrite Hq.
  pose proof HI as [Hi Hlo Hhi Hb].
  destruct (mode s) eqn:Hm; simpl.
  - split; [|done]. inv_fields.
  - apply nextQuestion_Inv. inv_fields.
Qed.

Lemma progressClick_Inv idx e s :
  Inv s -> (idx < progressItems s)%nat ->
  Inv (settle (progressClick idx e s)) /\ threw (progressClick idx e s) = false.
Proof.
  intros HI Hidx. pose proof HI as [Hi Hlo Hhi Hb]. unfold progressClick.
  destruct (mode s).
  - apply renderQuestion_Inv. inv_fields.
  - case_decide; [|done]. apply renderQuestion_Inv. inv_fields.
Qed.

Lemma tagClick_Inv k tag s :
  Inv s -> Inv (settle (tagClick k tag s)) /\ threw (tagClick k tag s) = false.
Proof.
  intros HI. pose proof HI as [Hi Hlo Hhi Hb]. unfold tagClick.
  destruct (reviewList s !! k) as [it|]; [|done].
  destruct (r_isCorrect it); [done|].
  split; [|done]. simpl.
  destruct (r_ans it) as [l|]; [destruct (heap s !! l)|]; inv_fields.
Qed.

Lemma fireTimer_Inv k e s :
  Inv s -> Inv (settle (fireTimer k e s)) /\ threw (fireTimer k e s) = false.
Proof.
  intros HI. pose proof HI as [Hi Hlo Hhi Hb]. unfold fireTimer.
  destruct (timers s !! k) as [[d [q|]]|]; [| |done].
  - split; [|done]. inv_fields.
  - apply nextQuestion_Inv. inv_fields.
Qed.

(** No handler reached through the page ever throws, and each keeps the
    invariant. *)
Lemma dispatch_Inv a e s :
  Inv s -> Inv (settle (dispatch a e s)) /\ threw (dispatch a e s) = false.
Proof.
  intros HI. destruct a; simpl.
  - by apply startGame_Inv.
  - by apply startGame_Inv.
  - split; [|done]. destruct HI. inv_fields.
  - destruct (choiceButtons s !! pos); [|done]. by apply handleChoice_Inv.
  - destruct (choiceButtons s !! pos) eqn:Hp; [|done].
    apply handleChoice_Inv; [done|]. intros _ Hnil.
    destruct HI as [_ _ _ Hb]. by rewrite (Hb Hnil) in Hp.
  - case_decide; [|done]. by apply progressClick_Inv.
  - by apply tagClick_Inv.
  - by apply fireTimer_Inv.
Qed.

Lemma step_Inv s ev : Inv s -> Inv (step s ev).
Proof. intros HI. by apply dispatch_Inv. Qed.

Lemma run_Inv evs s : Inv s -> Inv (run s evs).
Proof.
  revert s. induction evs as [|ev evs IH]; intros s HI; [done|].
  simpl. apply IH. by apply step_Inv.
Qed.

(** Starting a game resets the session but touches neither the question
    list, nor the record objects, nor the pending timers. *)
Lemma startGame_frame m e s :
  let s' := settle (startGame m e s) in
  questions s' = questions s /\ heap s' = heap s /\ timers s' = timers s.
Proof.
  unfold startGame.
  set (s2 := set_resultsScreenHidden true (set_startScreenHidden true
               (set_answers ∅ (set_currentQuestionIndex 0 (set_mode m s))))).
  destruct (renderQuestion_session e s2) as (Hq&_&Hh&_&Ht).
  destruct (renderQuestion e s2) as [s3|s3]; simpl in *.
  - unfold renderProgressBar. rewrite updateProgressBar_settle. simpl.
    by rewrite Hq, Hh, Ht.
  - by rewrite Hq, Hh, Ht.
Qed.

(** The question list is assigned once, before any handler is installed. *)
Lemma dispatch_questions a e s : questions (settle (dispatch a e s)) = questions s.
Proof.
  destruct a; simpl.
  - apply startGame_frame.
  - apply startGame_frame.
  - done.
  - by destruct (choiceButtons s !! pos).
  - destruct (choiceButtons s !! pos) as [k|]; [|done].
    unfold handleChoice. simpl.
    destruct (questionAt s (currentQuestionIndex s)) as [q|]; [|done].
    destruct (mode s) eqn:Hm; simpl; [done|].
    by destruct (nextQuestion_session e
      (set_answers (<[q_id q:=length (heap s)]> (answers s))
        (set_heap (heap s ++ [{| isCorrect := bool_decide (Z.of_nat k = q_correctIndex q);
                                 selectedIndex := Z.of_nat k; timestamp := now e;
                                 errorTag := tag_undefined |}]) s))).
  - case_decide; [|done]. unfold progressClick.
    destruct (mode s).
    + by destruct (renderQuestion_session e
        (set_currentQuestionIndex (Z.of_nat idx) s)).
    + case_decide; [|done].
      by destruct (renderQuestion_session e
        (set_currentQuestionIndex (Z.of_nat idx) s)).
  - unfold tagClick. destruct (reviewList s !! item) as [it|]; [|done].
    destruct (r_isCorrect it); [done|]. simpl.
    destruct (r_ans it) as [l|]; [destruct (heap s !! l)|]; done.
  - unfold fireTimer. destruct (timers s !! k) as [[d [q|]]|]; [done| |done].
    simpl. by destruct (nextQuestion_session e (set_timers (delete k (timers s)) s)).
Qed.

Lemma run_questions evs s : questions (run s evs) = questions s.
Proof.
  revert s. induction evs as [|ev evs IH]; intros s; [done|].
  simpl. rewrite IH. apply dispatch_questions.
Qed.

(** * Submitting an answer *)

(** A confirmed submission allocates one object and binds the current
    question's id to it, whatever the mode does next. *)
Lemma handleChoice_store sel e s q :
  questionAt s (currentQuestionIndex s) = Some q ->
  let s' := settle (handleChoice sel true e s) in
  answers s' = <[q_id q := length (heap s)]> (answers s)
  /\ heap s' = heap s ++ [submitted sel q e].
Proof.
  intros Hq. unfold handleChoice. simpl. rewrite Hq.
  destruct (mode s) eqn:Hm; simpl; [done|].
  destruct (nextQuestion_session e
    (set_answers (<[q_id q:=length (heap s)]> (answers s))
       (set_heap (heap s ++ [submitted sel q e]) s))) as (_&Ha&Hh&_).
  unfold submitted in *. by rewrite Ha, Hh.
Qed.

Lemma handleChoice_answerAt sel e s q :
  questionAt s (currentQuestionIndex s) = Some q ->
  answerAt (settle (handleChoice sel true e s)) (q_id q)
  = Some (submitted sel q e).
Proof.
  intros Hq. destruct (handleChoice_store sel e s q Hq) as [Ha Hh].
  unfold answerAt. rewrite Ha, Hh, lookup_insert_eq. simpl.
  rewrite lookup_app_r by lia. by rewrite Nat.sub_diag.
Qed.

(** A single click (no confirmation) does nothing at all. *)
Lemma handleChoice_unconfirmed sel e s : handleChoice sel false e s = Done s.
Proof. done. Qed.

(** C1: whenever the current question exists, a confirmed submission of
    index [sel] stores under that question's id a record whose
    [selectedIndex] is [sel] and whose [isCorrect] is true exactly when
    [sel] equals the question's [correctIndex] (and false for every other
    index). *)
Theorem submit_isCorrect_iff (sel : Z) (e : Env) (s : State) (q : Question) :
  questionAt s (currentQuestionIndex s) = Some q ->
  exists a,
    answerAt (settle (handleChoice sel true e s)) (q_id q) = Some a
    /\ selectedIndex a = sel
    /\ (isCorrect a = true <-> sel = q_correctIndex q)
    /\ (sel <> q_correctIndex q -> isCorrect a = false).
Proof.
  intros Hq. exists (submitted sel q e).
  split; [by apply handleChoice_answerAt|].
  split; [done|]. simpl. split.
  - apply bool_decide_eq_true.
  - intros Hne. by apply bool_decide_eq_false.
Qed.

Lemma submit_isCorrect_iff_witness :
  exists a,
    answerAt
      (settle (handleChoice 1 true (at_ 10)
                 (run (initialState [qA; qB]) [(at_ 0, BtnTest)])))
      (q_id qA) = Some a
    /\ selectedIndex a = 1
    /\ (isCorrect a = true <-> 1 = q_correctIndex qA)
    /\ (1 <> q_correctIndex qA -> isCorrect a = false).
Proof.
  apply (submit_isCorrect_iff 1 (at_ 10)
           (run (initialState [qA; qB]) [(at_ 0, BtnTest)]) qA).
  reflexivity.
Defined.

(** * The index stays in range *)

(** C2: from the loaded page with a non-empty question list, after any
    sequence of actions (starting a game in either mode, confirming or
    clicking choices, clicking progress items, restarting, tagging, timers
    firing in any order) the current index is a valid position of the
    question list. *)
Theorem currentQuestionIndex_in_range
    (qs : list Question) (evs : list (Env * Action)) :
  qs <> [] ->
  questions (run (initialState qs) evs) = qs
  /\ 0 <= currentQuestionIndex (run (initialState qs) evs)
       < Z.of_nat (length qs).
Proof.
  intros Hne. split; [apply run_questions|].
  destruct (run_Inv evs _ (initialState_Inv qs)) as [_ Hlo Hhi _].
  rewrite run_questions in *. simpl in *.
  destruct qs; [done|]. simpl in *. lia.
Qed.

Lemma currentQuestionIndex_in_range_witness :
  questions (run (initialState [qA; qB])
               [(at_ 0, BtnTest); (at_ 10, ChoiceDblClick 2);
                (at_ 20, ProgressClick 0)]) = [qA; qB]
  /\ 0 <= currentQuestionIndex
            (run (initialState [qA; qB])
               [(at_ 0, BtnTest); (at_ 10, ChoiceDblClick 2);
                (at_ 20, ProgressClick 0)])
       < Z.of_nat (length [qA; qB]).
Proof.
  apply (currentQuestionIndex_in_range [qA; qB]
           [(at_ 0, BtnTest); (at_ 10, ChoiceDblClick 2);
            (at_ 20, ProgressClick 0)]).
  discriminate.
Defined.

(** * Resubmission *)

Lemma ownKeys_insert s k l :
  dom (delete protoKey (<[k := l]> (answers s)))
  = (if decide (k = protoKey) then ∅ else {[k]}) ∪ ownKeys s.
Proof.
  unfold ownKeys. case_decide as Hk.
  - subst k. by rewrite delete_insert_eq, (left_id_L ∅ (∪)).
  - rewrite delete_insert_ne by done. apply dom_insert_L.
Qed.

(** C3: [state.answers] is a mapping, so a lookup of an id finds at most
    one record.  After a confirmed submission the lookup of the current
    question's id finds the new record: selection, verdict and timestamp are
    those of this submission and the record carries no error tag, whatever
    was stored before.  The lookup of every other id finds what it found
    before; the only own key that can be new is the current question's id
    (none at all when that id is [__proto__], whose assignment replaces the
    prototype); and when the id already had a record, neither the own keys
    nor the number of ids with a record change. *)
Theorem resubmit_overwrites (sel : Z) (e : Env) (s : State) (q : Question) :
  questionAt s (currentQuestionIndex s) = Some q ->
  let s' := settle (handleChoice sel true e s) in
  answerAt s' (q_id q)
    = Some {| isCorrect := bool_decide (sel = q_correctIndex q);
              selectedIndex := sel;
              timestamp := now e;
              errorTag := tag_undefined |}
  /\ (forall k, k <> q_id q -> answers s' !! k = answers s !! k)
  /\ ownKeys s'
     = (if decide (q_id q = protoKey) then ∅ else {[q_id q]}) ∪ ownKeys s
  /\ (is_Some (answers s !! q_id q) ->
      ownKeys s' = ownKeys s /\ size (answers s') = size (answers s)).
Proof.
  intros Hq s'. split; [by apply handleChoice_answerAt|].
  destruct (handleChoice_store sel e s q Hq) as [Ha _]. fold s' in Ha.
  split; [intros k Hk; by rewrite Ha, lookup_insert_ne|].
  assert (Hown : ownKeys s'
    = (if decide (q_id q = protoKey) then ∅ else {[q_id q]}) ∪ ownKeys s).
  { unfold ownKeys at 1. rewrite Ha. apply ownKeys_insert. }
  split; [done|].
  intros Hsome. split; [|by rewrite Ha, map_size_insert_Some].
  rewrite Hown. case_decide as Hk; [by rewrite (left_id_L ∅ (∪))|].
  apply subseteq_union_1_L, singleton_subseteq_l.
  unfold ownKeys. apply elem_of_dom. by rewrite lookup_delete_ne.
Qed.

Lemma resubmit_overwrites_witness :
  let s' := settle (handleChoice 1 true (at_ 10) resubmitState) in
  answerAt s' (q_id qA)
    = Some {| isCorrect := bool_decide (1 = q_correctIndex qA);
              selectedIndex := 1;
              timestamp := now (at_ 10);
              errorTag := tag_undefined |}
  /\ (forall k, k <> q_id qA -> answers s' !! k = answers resubmitState !! k)
  /\ ownKeys s'
     = (if decide (q_id qA = protoKey) then ∅ else {[q_id qA]})
       ∪ ownKeys resubmitState
  /\ (is_Some (answers resubmitState !! q_id qA) ->
      ownKeys s' = ownKeys resubmitState
      /\ size (answers s') = size (answers resubmitState)).
Proof.
  apply (resubmit_overwrites 1 (at_ 10) resubmitState qA). reflexivity.
Defined.

(** * Navigation *)

(** C4: a click on progress item [idx] (an existing item) in PRACTICE mode
    sets the index to [idx]; in TEST mode it sets the index to [idx] when
    [idx] is the current index minus one and otherwise changes nothing at
    all; in no case are the answers or the record objects touched. *)
Theorem progressClick_policy (idx : nat) (e : Env) (s : State) :
  (idx < progressItems s)%nat ->
  let s' := step s (e, ProgressClick idx) in
  (mode s = practice -> currentQuestionIndex s' = Z.of_nat idx)
  /\ (mode s = test -> Z.of_nat idx = currentQuestionIndex s - 1 ->
      currentQuestionIndex s' = Z.of_nat idx)
  /\ (mode s = test -> Z.of_nat idx <> currentQuestionIndex s - 1 -> s' = s)
  /\ answers s' = answers s
  /\ heap s' = heap s.
Proof.
  intros Hidx s'. subst s'. unfold step. simpl.
  rewrite decide_True by done. unfold progressClick.
  pose proof (renderQuestion_index e (set_currentQuestionIndex (Z.of_nat idx) s))
    as Hcur.
  destruct (renderQuestion_session e (set_currentQuestionIndex (Z.of_nat idx) s))
    as (_&Ha&Hh&_).
  destruct (mode s) eqn:Hm.
  - by repeat split.
  - case_decide as Hprev; repeat split; done.
Qed.

Lemma progressClick_policy_witness :
  let s := run (initialState [qA; qB; qC])
             [(at_ 0, BtnTest); (at_ 10, ChoiceDblClick 0);
              (at_ 20, ChoiceDblClick 0)] in
  let s' := step s (at_ 30, ProgressClick 1) in
  (mode s = practice -> currentQuestionIndex s' = Z.of_nat 1)
  /\ (mode s = test -> Z.of_nat 1 = currentQuestionIndex s - 1 ->
      currentQuestionIndex s' = Z.of_nat 1)
  /\ (mode s = test -> Z.of_nat 1 <> currentQuestionIndex s - 1 -> s' = s)
  /\ answers s' = answers s
  /\ heap s' = heap s.
Proof.
  apply (progressClick_policy 1 (at_ 30)
           (run (initialState [qA; qB; qC])
              [(at_ 0, BtnTest); (at_ 10, ChoiceDblClick 0);
               (at_ 20, ChoiceDblClick 0)])).
  vm_compute. lia.
Defined.

(** * Results *)

Lemma records_lookup s k : records s !! k = answerAt s k.
Proof. unfold records, answerAt. by rewrite lookup_omap. Qed.


Lemma count_correct_values (h : list Answer) (m : gmap string loc) :
  length (filter (λ a, isCorrect a = true)
            (omap (λ kv : string * loc, h !! kv.2) (map_to_list m)))
  = size (filter (λ kv : string * Answer, isCorrect kv.2 = true)
            (omap (λ l, h !! l) m)).
Proof.
  induction m as [|k l m Hk IH] using map_ind.
  - by rewrite map_to_list_empty, omap_empty, map_filter_empty, map_size_empty.
  - rewrite map_to_list_insert by done.
    assert (omap (λ l, h !! l) m !! k = None) as Hk'
      by (by rewrite lookup_omap, Hk).
    change (omap (λ kv : string * loc, h !! kv.2) ((k, l) :: map_to_list m))
      with (match h !! l with
            | Some a => a :: omap (λ kv : string * loc, h !! kv.2) (map_to_list m)
            | None => omap (λ kv : string * loc, h !! kv.2) (map_to_list m)
            end).
    destruct (h !! l) as [a|] eqn:Hl.
    + rewrite (omap_insert_Some _ _ _ _ a) by done.
      rewrite map_filter_insert, filter_cons. simpl.
      destruct (decide (isCorrect a = true)) as [Ha|Ha].
      * rewrite map_size_insert_None by (by apply map_lookup_filter_None; left).
        simpl. by rewrite IH.
      * by rewrite IH, delete_id.
    + rewrite omap_insert_None by done. by rewrite IH, delete_id.
Qed.

(** The score counts the correct records under own keys. *)
Lemma correctCount_ownRecords s :
  correctCount s
  = size (filter (λ kv : string * Answer, isCorrect kv.2 = true)
            (ownRecords s)).
Proof. apply count_correct_values. Qed.

(** When no record has become the prototype these are all the records. *)
Lemma correctCount_records s :
  answers s !! protoKey = None ->
  correctCount s
  = size (filter (λ kv : string * Answer, isCorrect kv.2 = true) (records s)).
Proof.
  intros Hp. rewrite correctCount_ownRecords. unfold ownRecords, records.
  by rewrite delete_id.
Qed.

Lemma length_omap_le {A B} (f : A -> option B) (l : list A) :
  (length (omap f l) <= length l)%nat.
Proof.
  induction l as [|x l IH]; [done|].
  change (omap f (x :: l))
    with (match f x with Some y => y :: omap f l | None => omap f l end).
  destruct (f x); simpl; lia.
Qed.

Lemma correctCount_le s : (correctCount s <= size (answers s))%nat.
Proof.
  unfold correctCount, objectValues.
  etrans; [apply length_filter|].
  etrans; [apply length_omap_le|].
  rewrite length_map_to_list.
  apply map_subseteq_size, delete_subseteq.
Qed.

Lemma reviewList_showResults s :
  reviewList (showResults s) = reviewItem s <$> questions s.
Proof. done. Qed.

(** What showResults puts on the page: the score is the number of correct
    records under own keys out of the number of questions; the review list
    has one entry per question, in question order, each holding its
    question and the record a lookup of its id finds, or none. *)
Lemma showResults_summary (s : State) :
  let s' := showResults s in
  scoreDisplay s' = Some (correctCount s, length (questions s))
  /\ correctCount s
     = size (filter (λ kv : string * Answer, isCorrect kv.2 = true)
               (ownRecords s))
  /\ (answers s !! protoKey = None ->
      correctCount s
      = size (filter (λ kv : string * Answer, isCorrect kv.2 = true)
                (records s)))
  /\ (correctCount s <= size (answers s))%nat
  /\ length (reviewList s') = length (questions s)
  /\ (forall i q, questions s !! i = Some q ->
        exists it,
          reviewList s' !! i = Some it
          /\ r_question it = q
          /\ r_ans it = answers s !! q_id q
          /\ r_ans it ≫= (λ l, heap s' !! l) = answerAt s (q_id q)
          /\ r_isCorrect it = from_option isCorrect false (answerAt s (q_id q)))
  /\ same_session s s'.
Proof.
  intros s'. split; [done|]. split; [apply correctCount_ownRecords|].
  split; [apply correctCount_records|].
  split; [apply correctCount_le|].
  split; [subst s'; by rewrite reviewList_showResults, length_fmap|].
  split; [|apply showResults_session].
  intros i q Hq. exists (reviewItem s q). subst s'.
  rewrite reviewList_showResults, list_lookup_fmap, Hq. done.
Qed.

(** C5, at the input where the code departs from it: one question whose id
    is [__proto__], answered correctly in a TEST game.  The record is found
    under the question's id, its [isCorrect] is true and the review entry
    shows the question as correct, yet the score displayed is 0 out of 1:
    the record has become the prototype of [state.answers] and
    [Object.values] does not list it. *)
Theorem score_omits_prototype_record :
  let trace := [(at_ 0, BtnTest); (at_ 10, ChoiceDblClick 0)] in
  let s := run (initialState [qP]) trace in
  feasible 0 (initialState [qP]) trace = true
  /\ q_id qP = "__proto__"%string
  /\ (isCorrect <$> answerAt s (q_id qP)) = Some true
  /\ size (filter (λ kv : string * Answer, isCorrect kv.2 = true) (records s))
     = 1%nat
  /\ resultsScreenHidden s = false
  /\ scoreDisplay s = Some (0%nat, 1%nat)
  /\ (r_isCorrect <$> reviewList s !! 0%nat) = Some true.
Proof. vm_compute. by repeat split. Qed.

(** * Error tags *)



(** What a tag click does to the session data, case by case. *)
Lemma tagClick_correct k tag s it :
  reviewList s !! k = Some it -> r_isCorrect it = true ->
  tagClick k tag s = Done s.
Proof. intros Hk Hc. unfold tagClick. by rewrite Hk, Hc. Qed.

Lemma tagClick_no_record k tag s it :
  reviewList s !! k = Some it -> r_isCorrect it = false -> r_ans it = None ->
  tagClick k tag s
  = Done (set_reviewList (<[k := set_selected None it]> (reviewList s)) s).
Proof. intros Hk Hc Ha. unfold tagClick. by rewrite Hk, Hc, Ha. Qed.

Lemma tagClick_record k tag s it l a :
  reviewList s !! k = Some it -> r_isCorrect it = false ->
  r_ans it = Some l -> heap s !! l = Some a ->
  tagClick k tag s
  = Done (set_reviewList
            (<[k := set_selected
                      (if slot_truthy (errorTag (toggled a tag)) then Some tag
                       else None) it]> (reviewList s))
            (set_heap (<[l := toggled a tag]> (heap s)) s)).
Proof.
  intros Hk Hc Ha Hl. unfold tagClick. rewrite Hk, Hc, Ha, Hl. simpl.
  rewrite list_lookup_insert_eq by (by eapply lookup_lt_Some). done.
Qed.

Lemma tagClick_dangling k tag s it l :
  reviewList s !! k = Some it -> r_isCorrect it = false ->
  r_ans it = Some l -> heap s !! l = None ->
  tagClick k tag s
  = Done (set_reviewList (<[k := set_selected None it]> (reviewList s)) s).
Proof.
  intros Hk Hc Ha Hl. unfold tagClick. rewrite Hk, Hc, Ha, Hl. simpl.
  by rewrite Hl.
Qed.

Lemma tagClick_answers k tag s : answers (settle (tagClick k tag s)) = answers s.
Proof.
  unfold tagClick. destruct (reviewList s !! k) as [it|]; [|done].
  destruct (r_isCorrect it); [done|]. simpl.
  destruct (r_ans it) as [l|]; [destruct (heap s !! l)|]; done.
Qed.


(** ** Review entries without a record *)












(** An entry without a record on a page the user can reach: a PRACTICE
    round confirmed twice leaves an advance pending when it ends, and that
    advance ends the TEST game started next before its question is
    answered.  The entry is shown as incorrect, its tag buttons are there,
    and a click on one changes nothing. *)
Example tag_click_without_record :
  let trace :=
    [(at_ 0, BtnPractice); (at_ 10, ChoiceDblClick 0);
     (at_ 400, ChoiceDblClick 1); (at_ 510, TimerFires 0);
     (at_ 710, TimerFires 1); (at_ 2500, TimerFires 0);
     (at_ 2540, BtnTest); (at_ 2700, TimerFires 0)] in
  let s := run (initialState [qA]) trace in
  feasible 0 (initialState [qA]) (trace ++ [(at_ 2740, TagClick 0 Misread)])
    = true
  /\ answers s !! "a"%string = None
  /\ (r_isCorrect <$> reviewList s !! 0%nat) = Some false
  /\ tagClick 0 Misread s = Done s.
Proof. vm_compute. by repeat split. Qed.

(** * Feedback sequences *)

Lemma handleChoice_practice sel e s q :
  mode s = practice ->
  questionAt s (currentQuestionIndex s) = Some q ->
  handleChoice sel true e s
  = Done (set_timers (timers s ++ [(now e + 500, OverlayTimeout q)])
            (set_answers (<[q_id q := length (heap s)]> (answers s))
               (set_heap (heap s ++ [submitted sel q e]) s))).
Proof. intros Hm Hq. unfold handleChoice. simpl. by rewrite Hq, Hm. Qed.

(** C7 (as the code has it): in PRACTICE mode a confirmed submission is
    accepted whether or not feedback sequences are pending: it overwrites
    the record of the current question, leaves the index where it is and
    adds one more sequence to those in flight, whose overlay callback in
    turn schedules one call of nextQuestion. *)
Theorem practice_submit_while_pending
    (sel : Z) (e : Env) (s : State) (q : Question) :
  mode s = practice ->
  questionAt s (currentQuestionIndex s) = Some q ->
  let s' := settle (handleChoice sel true e s) in
  threw (handleChoice sel true e s) = false
  /\ answerAt s' (q_id q) = Some (submitted sel q e)
  /\ currentQuestionIndex s' = currentQuestionIndex s
  /\ timers s' = timers s ++ [(now e + 500, OverlayTimeout q)]
  /\ pendingSequences s' = S (pendingSequences s)
  /\ (forall e' s0, runTask (OverlayTimeout q) e' s0
        = Done (setTimeout NextTimeout 200 e'
                  (set_feedbackHidden false (renderExplanation q s0))))
  /\ (forall e' s0, runTask NextTimeout e' s0 = nextQuestion e' s0).
Proof.
  intros Hm Hq s'. split; [by rewrite (handleChoice_practice _ _ _ q)|].
  split; [by apply handleChoice_answerAt|].
  subst s'. rewrite (handleChoice_practice _ _ _ q) by done. simpl.
  repeat split; try done.
  unfold pendingSequences. simpl. rewrite length_app. simpl. lia.
Qed.

Lemma practice_submit_while_pending_witness :
  let s' := settle (handleChoice 2 true (at_ 300) pendingState) in
  threw (handleChoice 2 true (at_ 300) pendingState) = false
  /\ answerAt s' (q_id qA) = Some (submitted 2 qA (at_ 300))
  /\ currentQuestionIndex s' = currentQuestionIndex pendingState
  /\ timers s' = timers pendingState ++ [(now (at_ 300) + 500, OverlayTimeout qA)]
  /\ pendingSequences s' = S (pendingSequences pendingState)
  /\ (forall e' s0, runTask (OverlayTimeout qA) e' s0
        = Done (setTimeout NextTimeout 200 e'
                  (set_feedbackHidden false (renderExplanation qA s0))))
  /\ (forall e' s0, runTask NextTimeout e' s0 = nextQuestion e' s0).
Proof.
  apply (practice_submit_while_pending 2 (at_ 300) pendingState qA).
  - reflexivity.
  - reflexivity.
Defined.

(** C7 as stated fails: with a sequence pending for question "a" (confirmed
    at 10 ms), a second confirmation at 300 ms is not rejected.  It replaces
    the record, a second sequence is in flight, and when both have run the
    index has advanced twice: question "b" was passed over without an
    answer. *)
Lemma second_submit_counterexample :
  let s1 := pendingState in
  let s2 := step s1 (at_ 300, ChoiceDblClick 1) in
  let s3 := run s2 [(at_ 510, TimerFires 0); (at_ 710, TimerFires 1);
                    (at_ 800, TimerFires 0); (at_ 1000, TimerFires 0)] in
  feasible 0 (initialState [qA; qB; qC])
    [(at_ 0, BtnPractice); (at_ 10, ChoiceDblClick 0);
     (at_ 300, ChoiceDblClick 1);
     (at_ 510, TimerFires 0); (at_ 710, TimerFires 1);
     (at_ 800, TimerFires 0); (at_ 1000, TimerFires 0)] = true
  /\ mode s1 = practice
  /\ questionText s1 = Some qA
  /\ timers s1 = [(510, OverlayTimeout qA)]
  /\ questionText s2 = Some qA
  /\ s2 <> s1
  /\ (selectedIndex <$> answerAt s1 "a") = Some 1
  /\ (selectedIndex <$> answerAt s2 "a") = Some 2
  /\ timers s2 = [(510, OverlayTimeout qA); (800, OverlayTimeout qA)]
  /\ currentQuestionIndex s2 = 0
  /\ currentQuestionIndex s3 = 2
  /\ answerAt s3 "b" = None.
Proof.
  vm_compute. repeat split; try done.
Qed.

(** * Starting on an empty question list *)

Lemma questionAt_empty s i : questions s = [] -> questionAt s i = None.
Proof. intros Hnil. unfold questionAt. rewrite Hnil. by case_decide. Qed.

Lemma renderQuestion_empty e s : questions s = [] -> renderQuestion e s = Done s.
Proof. intros Hnil. unfold renderQuestion. by rewrite questionAt_empty. Qed.

Lemma nextQuestion_empty e s :
  questions s = [] -> 0 <= currentQuestionIndex s ->
  questionText (settle (nextQuestion e s)) = questionText s.
Proof.
  intros Hnil Hlo. unfold nextQuestion, updateProgressBar.
  case_decide; simpl; [|done].
  rewrite Hnil. simpl. rewrite decide_False by lia. simpl.
  unfold finishGame. by destruct (mode s).
Qed.

(** With no questions nothing is ever written to the question area. *)
Lemma dispatch_empty_questionText a e s :
  questions s = [] -> Inv s ->
  questionText (settle (dispatch a e s)) = questionText s.
Proof.
  intros Hnil [_ Hlo _ Hb]. destruct a; simpl.
  - unfold startGame. rewrite renderQuestion_empty by done. simpl.
    unfold renderProgressBar. by rewrite updateProgressBar_settle.
  - unfold startGame. rewrite renderQuestion_empty by done. simpl.
    unfold renderProgressBar. by rewrite updateProgressBar_settle.
  - done.
  - by rewrite (Hb Hnil).
  - by rewrite (Hb Hnil).
  - case_decide; [|done]. unfold progressClick.
    destruct (mode s); [by rewrite renderQuestion_empty|].
    case_decide; [|done]. by rewrite renderQuestion_empty.
  - unfold tagClick. destruct (reviewList s !! item) as [it|]; [|done].
    destruct (r_isCorrect it); [done|]. simpl.
    destruct (r_ans it) as [l|]; [destruct (heap s !! l)|]; done.
  - unfold fireTimer. destruct (timers s !! k) as [[d [q|]]|]; [done| |done].
    simpl. by rewrite nextQuestion_empty.
Qed.

Lemma run_empty_questionText evs s :
  questions s = [] -> Inv s -> questionText (run s evs) = questionText s.
Proof.
  revert s. induction evs as [|ev evs IH]; intros s Hnil HI; [done|].
  simpl. rewrite IH.
  - by apply dispatch_empty_questionText.
  - unfold step. by rewrite dispatch_questions.
  - by apply step_Inv.
Qed.

(** C8 (as the code has it): startGame does not look at the length of the
    question list.  On the page loaded with an empty list, at any moment,
    it runs to its end without an error: it sets the mode, resets index and
    answers and hides the start and results screens; no question text, no
    choice button and no progress item is in the page, and no later action
    raises an error either. *)
Theorem startGame_empty_list (m : Mode) (e : Env) (evs : list (Env * Action)) :
  let s := run (initialState []) evs in
  let o := startGame m e s in
  threw o = false
  /\ startScreenHidden (settle o) = true
  /\ resultsScreenHidden (settle o) = true
  /\ mode (settle o) = m
  /\ currentQuestionIndex (settle o) = 0
  /\ answers (settle o) = ∅
  /\ questionText (settle o) = None
  /\ choiceButtons (settle o) = []
  /\ progressItems (settle o) = 0%nat
  /\ (forall a e', threw (dispatch a e' (settle o)) = false).
Proof.
  intros s o.
  assert (Hnil : questions s = []) by apply run_questions.
  assert (HI : Inv s) by apply run_Inv, initialState_Inv.
  assert (Hqt : questionText s = None).
  { subst s. rewrite run_empty_questionText;
      [done | done | apply initialState_Inv]. }
  destruct (startGame_Inv m e s HI) as [HI' Hthrew]. fold o in HI', Hthrew.
  assert (Ho : o = Done (set_progressItems 0
             (set_resultsScreenHidden true (set_startScreenHidden true
               (set_answers ∅ (set_currentQuestionIndex 0 (set_mode m s))))))).
  { subst o. unfold startGame. rewrite renderQuestion_empty by done. simpl.
    unfold renderProgressBar. simpl. rewrite Hnil. simpl.
    by rewrite updateProgressBar_ok by (simpl; lia). }
  split; [done|]. rewrite Ho in *. simpl in *.
  repeat split; try done.
  - destruct HI as [_ _ _ Hb]. by apply Hb.
  - intros a e'. by apply dispatch_Inv.
Qed.

(** C8 as stated fails: on the loaded page with no questions, the Test
    button can be clicked, startGame raises nothing, and the start screen is
    gone afterwards. *)
Lemma startGame_empty_counterexample :
  let s := initialState [] in
  let o := dispatch BtnTest (at_ 0) s in
  enabled BtnTest (at_ 0) s = true
  /\ threw o = false
  /\ startScreenHidden s = false
  /\ startScreenHidden (settle o) = true
  /\ mode (settle o) = test
  /\ settle o <> s.
Proof. vm_compute. by repeat split. Qed.

(** * Restart and pending timers *)

(** C9 (as the code has it): neither the restart button nor startGame
    touches the timer list.  Whatever callbacks were pending before a
    restart followed by a new start are still pending afterwards, and a
    pending advance then runs nextQuestion on the new session. *)
Theorem restart_keeps_timers (m : Mode) (e : Env) (s : State) :
  let s1 := settle (restartClick s) in
  let s2 := settle (startGame m e s1) in
  timers s1 = timers s
  /\ timers s2 = timers s
  /\ mode s2 = m
  /\ (forall k d e', timers s !! k = Some (d, NextTimeout) ->
        fireTimer k e' s2
        = nextQuestion e' (set_timers (delete k (timers s)) s2)).
Proof.
  intros s1 s2. split; [done|].
  destruct (startGame_frame m e s1) as (_&_&Ht). fold s2 in Ht.
  split; [done|]. split.
  - subst s2. unfold startGame.
    set (s' := set_resultsScreenHidden _ _).
    destruct (renderQuestion_session e s') as (_&_&_&Hm&_).
    destruct (renderQuestion e s') as [s3|s3]; simpl in *; [|done].
    unfold renderProgressBar. by rewrite updateProgressBar_settle.
  - intros k d e' Hk. unfold fireTimer. rewrite Ht. simpl in *.
    by rewrite Hk.
Qed.

(** C9 as stated fails.  One question, PRACTICE mode: it is confirmed twice
    (10 ms and 400 ms), the first sequence ends the round at 710 ms and the
    alert holds the second one back until 2500 ms, when its overlay callback
    schedules the advance for 2700 ms.  Within that time a TEST round is
    started and finished, the restart button is clicked (the advance is
    still pending), and a new TEST session is started at 2660 ms.  At
    2700 ms the old advance fires: the new session is finished and its
    results are shown, 0 out of 1, before anything was answered. *)
Lemma restart_pending_counterexample :
  let before :=
    [(at_ 0, BtnPractice); (at_ 10, ChoiceDblClick 0);
     (at_ 400, ChoiceDblClick 1); (at_ 510, TimerFires 0);
     (at_ 710, TimerFires 1); (at_ 2500, TimerFires 0);
     (at_ 2540, BtnTest); (at_ 2580, ChoiceDblClick 0)] in
  let s0 := run (initialState [qA]) before in
  let s1 := step s0 (at_ 2620, BtnRestart) in
  let s2 := step s1 (at_ 2660, BtnTest) in
  let s3 := step s2 (at_ 2700, TimerFires 0) in
  feasible 0 (initialState [qA])
    (before ++ [(at_ 2620, BtnRestart); (at_ 2660, BtnTest);
                (at_ 2700, TimerFires 0)]) = true
  /\ timers s0 = [(2700, NextTimeout)]
  /\ timers s1 = [(2700, NextTimeout)]
  /\ timers s2 = [(2700, NextTimeout)]
  /\ answers s2 = ∅ /\ resultsScreenHidden s2 = true
  /\ questionText s2 = Some qA
  /\ answers s3 = ∅ /\ resultsScreenHidden s3 = false
  /\ scoreDisplay s3 = Some (0%nat, 1%nat).
Proof. vm_compute. by repeat split. Qed.

(** * The choice shuffle *)

(** [Math.floor(Math.random() * (i + 1))] is one of [0 .. i]. *)
Lemma floorTimes_le r i : (floorTimes r (i + 1) <= i)%nat.
Proof.
  unfold floorTimes. destruct r as [n g]. simpl.
  assert ((n * (i + 1)) `div` (n + g + 1) < i + 1)%nat; [|lia].
  apply Nat.Div0.div_lt_upper_bound.
  replace ((n + g + 1) * (i + 1))%nat
    with (n * (i + 1) + (g + 1) * (i + 1))%nat by lia.
  assert (0 < (g + 1) * (i + 1))%nat by (apply Nat.mul_pos_pos; lia). lia.
Qed.

Lemma list_delete_insert_same {A} (l : list A) i x :
  delete i (<[i:=x]> l) = delete i l.
Proof.
  revert i. induction l as [|y l IH]; intros [|i]; simpl; try done.
  by rewrite IH.
Qed.

Lemma insert_Permutation {A} (l : list A) i x y :
  l !! i = Some y -> <[i:=x]> l ≡ₚ x :: delete i l.
Proof.
  intros Hi. rewrite <- (list_delete_insert_same l i x).
  apply delete_Permutation, list_lookup_insert_eq. by eapply lookup_lt_Some.
Qed.

(** Exchanging two positions rearranges the list and nothing else. *)
Lemma swap_Permutation i j l : swap i j l ≡ₚ l.
Proof.
  unfold swap.
  destruct (l !! i) as [x|] eqn:Hi; [|done].
  destruct (l !! j) as [y|] eqn:Hj; [|done].
  destruct (decide (i = j)) as [->|Hne].
  - assert (x = y) as -> by congruence.
    by rewrite list_insert_insert_eq, list_insert_id.
  - assert (Hj' : <[i:=y]> l !! j = Some y)
      by (by rewrite list_lookup_insert_ne).
    etrans; [apply (insert_Permutation _ j x y Hj')|].
    etrans; [|symmetry; apply (delete_Permutation l i x Hi)].
    apply Permutation_skip, (Permutation_cons_inv (a:=y)).
    etrans; [symmetry; apply (delete_Permutation _ j y Hj')|].
    apply (insert_Permutation l i y x Hi).
Qed.

(** In the loop both reads of the exchange are in range. *)
Lemma swap_in_range i j (l : list nat) :
  (i < length l)%nat -> (j <= i)%nat ->
  exists x y, l !! i = Some x /\ l !! j = Some y
              /\ swap i j l = <[j := x]> (<[i := y]> l).
Proof.
  intros Hi Hj.
  destruct (lookup_lt_is_Some_2 l i Hi) as [x Hx].
  destruct (lookup_lt_is_Some_2 l j ltac:(lia)) as [y Hy].
  exists x, y. unfold swap. by rewrite Hx, Hy.
Qed.

Lemma swap_length i j (l : list nat) : length (swap i j l) = length l.
Proof. apply Permutation_length, swap_Permutation. Qed.

Lemma shuffleFrom_readsInRange rnd k i l :
  (i < length l)%nat -> readsInRange rnd k i l = true.
Proof.
  revert k l. induction i as [|i IH]; intros k l Hi; simpl; [done|].
  pose proof (floorTimes_le (rnd k) (S i)) as Hj. simpl in Hj.
  rewrite !bool_decide_eq_true_2 by lia. simpl.
  apply IH. rewrite swap_length. lia.
Qed.

(** With draws below the bound, every exchange of the loop reads two
    existing positions, however many choices the question has. *)
Lemma shuffledIndices_readsInRange rnd q :
  readsInRange rnd 0 (length (seq 0 (length (q_choices q))) - 1)
    (seq 0 (length (q_choices q))) = true.
Proof.
  destruct (q_choices q) as [|c cs]; [done|].
  apply shuffleFrom_readsInRange. simpl. lia.
Qed.

(** ** The index drawn from a product of doubles *)

(** Rounding moves the product by less than the bound. *)
Lemma roundedProduct_bounds m n :
  0 <= m < 2 ^ 53 -> 1 <= n ->
  let '(sig, d) := roundedProduct m n in
  0 <= d /\ 0 <= sig * 2 ^ d /\ sig * 2 ^ d < m * n + n.
Proof.
  intros Hm Hn. unfold roundedProduct.
  remember (m * n) as x eqn:Ex.
  assert (Hx : 0 <= x) by (subst x; nia).
  destruct (decide (x = 0)) as [Hx0|Hx0].
  { rewrite decide_True by lia. rewrite Z.pow_0_r. lia. }
  case_decide as Hlen; [rewrite Z.pow_0_r; lia|].
  destruct (Z.log2_spec x ltac:(lia)) as [Hlo Hhi].
  remember (Z.log2 x + 1 - 53) as d eqn:Ed.
  assert (Hd : 1 <= d) by lia.
  assert (Hpow : 0 < 2 ^ d) by (apply Z.pow_pos_nonneg; lia).
  assert (Hhalf : 2 ^ d = 2 * 2 ^ (d - 1)).
  { replace d with (Z.succ (d - 1)) at 1 by lia.
    rewrite Z.pow_succ_r by lia. done. }
  assert (Hsmall : 2 ^ (d - 1) < n).
  { assert (Hl : Z.log2 x = (d - 1) + 53) by lia.
    rewrite Hl, Z.pow_add_r in Hlo by lia.
    assert (0 < 2 ^ (d - 1)) by (apply Z.pow_pos_nonneg; lia).
    nia. }
  pose proof (Z.div_mod x (2 ^ d) ltac:(lia)) as Hdm.
  pose proof (Z.mod_pos_bound x (2 ^ d) Hpow) as Hr.
  assert (Hq : 0 <= x / 2 ^ d) by (apply Z.div_pos; lia).
  remember (x / 2 ^ d) as q eqn:Eq. remember (x mod 2 ^ d) as r eqn:Er.
  remember (2 ^ d) as D eqn:ED. remember (2 ^ (d - 1)) as H eqn:EH.
  assert (Hup : H <= r -> (q + 1) * D < x + n) by nia.
  assert (Hdown : q * D < x + n) by nia.
  assert (H0 : 0 <= q * D) by nia.
  assert (H1 : 0 <= (q + 1) * D) by nia.
  repeat case_decide; try destruct (Z.even q); cbv beta iota;
    rewrite <- ED; (split; [lia|]); split; try done; apply Hup; lia.
Qed.

(** [Math.floor(r * n)] is an index below [n] for every double [r] of
    [0, 1), although rounding can put it above the floor of the exact
    product. *)
Lemma floorOfProduct_in_range m p n :
  0 <= m < 2 ^ 53 -> 53 <= p -> 1 <= n ->
  0 <= floorOfProduct m p n <= n - 1.
Proof.
  intros Hm Hp Hn. unfold floorOfProduct.
  pose proof (roundedProduct_bounds m n Hm Hn) as Hb.
  destruct (roundedProduct m n) as [sig d]. destruct Hb as (Hd&H0&H1).
  assert (Hpp : 0 < 2 ^ p) by (apply Z.pow_pos_nonneg; lia).
  assert (Hmp : m + 1 <= 2 ^ p).
  { assert (2 ^ 53 <= 2 ^ p) by (apply Z.pow_le_mono_r; lia). lia. }
  split; [apply Z.div_pos; lia|].
  assert (sig * 2 ^ d / 2 ^ p < n); [|lia].
  apply Z.div_lt_upper_bound; [lia|]. nia.
Qed.

(** Every index below the bound is the draw of some fraction. *)
Lemma floorTimes_onto (j n : nat) :
  (j < n)%nat -> floorTimes {| r_num := j; r_gap := n - j - 1 |} n = j.
Proof.
  intros Hj. unfold floorTimes. simpl.
  replace (j + (n - j - 1) + 1)%nat with n by lia.
  apply Nat.div_mul. lia.
Qed.

(** The double [6004799503160661 / 2^53] (about 0.6667) times 3: the exact
    product has floor 1, the rounded product is 2. *)
Example floorOfProduct_rounds_up :
  floorOfProduct 6004799503160661 53 3 = 2
  /\ (6004799503160661 * 3) / 2 ^ 53 = 1.
Proof. by vm_compute. Qed.

(** X15: the shuffle loop of renderQuestion never reads or writes outside
    the array of indices.  For every double [m / 2^p] of [0, 1) that
    Math.random can return and every loop bound [n >= 1], the index that
    Math.floor takes from the rounded product of doubles lies in
    [0, n - 1] and is the draw of some fraction of the model; and for every
    sequence of draws and every question (also one without choices) each
    exchange of the loop reads two existing positions. *)
Theorem shuffle_stays_in_range
    (m p n : Z) (rnd : nat -> Rand) (q : Question) :
  0 <= m < 2 ^ 53 -> 53 <= p -> 1 <= n ->
  0 <= floorOfProduct m p n <= n - 1
  /\ (exists r, floorTimes r (Z.to_nat n) = Z.to_nat (floorOfProduct m p n))
  /\ readsInRange rnd 0 (length (q_choices q) - 1)
       (seq 0 (length (q_choices q))) = true.
Proof.
  intros Hm Hp Hn.
  pose proof (floorOfProduct_in_range m p n Hm Hp Hn) as Hj.
  split; [done|]. split.
  - eexists. apply floorTimes_onto. lia.
  - pose proof (shuffledIndices_readsInRange rnd q) as Hr.
    by rewrite length_seq in Hr.
Qed.

Lemma shuffle_stays_in_range_witness :
  0 <= floorOfProduct 6004799503160661 53 3 <= 3 - 1
  /\ (exists r, floorTimes r (Z.to_nat 3)
                = Z.to_nat (floorOfProduct 6004799503160661 53 3))
  /\ readsInRange (random (at_ 0)) 0 (length (q_choices qA) - 1)
       (seq 0 (length (q_choices qA))) = true.
Proof.
  apply (shuffle_stays_in_range 6004799503160661 53 3 (random (at_ 0)) qA).
  - by vm_compute.
  - lia.
  - lia.
Defined.

Lemma shuffleFrom_Permutation rnd k i l : shuffleFrom rnd k i l ≡ₚ l.
Proof.
  revert k l. induction i as [|i IH]; intros k l; simpl; [done|].
  by rewrite IH, swap_Permutation.
Qed.

Lemma shuffledIndices_Permutation rnd q :
  shuffledIndices rnd q ≡ₚ seq 0 (length (q_choices q)).
Proof. apply shuffleFrom_Permutation. Qed.

Lemma renderQuestion_buttons e s q :
  questionAt s (currentQuestionIndex s) = Some q ->
  choiceButtons (settle (renderQuestion e s)) = shuffledIndices (random e) q
  /\ questionText (settle (renderQuestion e s)) = Some q.
Proof.
  intros Hq. unfold renderQuestion. rewrite Hq, updateProgressBar_settle.
  simpl. by destruct (mode s), (answers s !! q_id q).
Qed.

Lemma renderQuestion_questionAt e s :
  questionAt (settle (renderQuestion e s))
    (currentQuestionIndex (settle (renderQuestion e s)))
  = questionAt s (currentQuestionIndex s).
Proof.
  rewrite renderQuestion_index. unfold questionAt.
  by destruct (renderQuestion_session e s) as (->&_).
Qed.

(** C10: each rendering of a question shows every choice exactly once, in
    an order drawn from the random source, and each button submits the
    original index of the choice it shows.  For two renderings under any two
    random sources and the buttons showing the same choice [k] in each, a
    confirmation stores the same answers mapping and the same record
    objects (selection [k], correct exactly when [k] is the question's
    [correctIndex]), hence the same score. *)
Theorem shuffle_does_not_interfere
    (e1 e2 ea eb : Env) (s : State) (q : Question) (p1 p2 k : nat) :
  questionAt s (currentQuestionIndex s) = Some q ->
  let s1 := settle (renderQuestion e1 s) in
  let s2 := settle (renderQuestion e2 s) in
  choiceButtons s1 !! p1 = Some k ->
  choiceButtons s2 !! p2 = Some k ->
  now ea = now eb ->
  let t1 := step s1 (ea, ChoiceDblClick p1) in
  let t2 := step s2 (eb, ChoiceDblClick p2) in
  choiceButtons s1 ≡ₚ seq 0 (length (q_choices q))
  /\ choiceButtons s2 ≡ₚ seq 0 (length (q_choices q))
  /\ (k < length (q_choices q))%nat
  /\ answerAt t1 (q_id q)
     = Some {| isCorrect := bool_decide (Z.of_nat k = q_correctIndex q);
               selectedIndex := Z.of_nat k;
               timestamp := now ea;
               errorTag := tag_undefined |}
  /\ answerAt t2 (q_id q) = answerAt t1 (q_id q)
  /\ answers t2 = answers t1
  /\ heap t2 = heap t1
  /\ correctCount t2 = correctCount t1.
Proof.
  intros Hq s1 s2 Hp1 Hp2 Hnow t1 t2.
  destruct (renderQuestion_buttons e1 s q Hq) as [Hb1 _].
  destruct (renderQuestion_buttons e2 s q Hq) as [Hb2 _].
  fold s1 in Hb1. fold s2 in Hb2.
  assert (Hq1 : questionAt s1 (currentQuestionIndex s1) = Some q)
    by (subst s1; by rewrite renderQuestion_questionAt).
  assert (Hq2 : questionAt s2 (currentQuestionIndex s2) = Some q)
    by (subst s2; by rewrite renderQuestion_questionAt).
  destruct (renderQuestion_session e1 s) as (_&Ha1&Hh1&_).
  destruct (renderQuestion_session e2 s) as (_&Ha2&Hh2&_).
  fold s1 in Ha1, Hh1. fold s2 in Ha2, Hh2.
  assert (Ht1 : t1 = settle (handleChoice (Z.of_nat k) true ea s1))
    by (subst t1; unfold step; simpl; by rewrite Hp1).
  assert (Ht2 : t2 = settle (handleChoice (Z.of_nat k) true eb s2))
    by (subst t2; unfold step; simpl; by rewrite Hp2).
  destruct (handleChoice_store (Z.of_nat k) ea s1 q Hq1) as [Hans1 Hheap1].
  destruct (handleChoice_store (Z.of_nat k) eb s2 q Hq2) as [Hans2 Hheap2].
  rewrite <- Ht1 in Hans1, Hheap1. rewrite <- Ht2 in Hans2, Hheap2.
  assert (Hans : answers t2 = answers t1)
    by (by rewrite Hans1, Hans2, Ha1, Ha2, Hh1, Hh2).
  assert (Hheap : heap t2 = heap t1).
  { rewrite Hheap1, Hheap2, Hh1, Hh2. unfold submitted. by rewrite Hnow. }
  split; [rewrite Hb1; apply shuffledIndices_Permutation|].
  split; [rewrite Hb2; apply shuffledIndices_Permutation|].
  split.
  { assert (Hin : k ∈ choiceButtons s1) by (by eapply list_elem_of_lookup_2).
    rewrite Hb1, shuffledIndices_Permutation in Hin.
    apply elem_of_seq in Hin. lia. }
  split; [rewrite Ht1; by apply handleChoice_answerAt|].
  split; [unfold answerAt; by rewrite Hans, Hheap|].
  split; [done|]. split; [done|].
  unfold correctCount, objectValues. by rewrite Hans, Hheap.
Qed.

(** Two renderings of question "a" at the start of a TEST session: under
    the source that always returns 0 the buttons show choices 1, 2, 3, 0;
    under the source that always returns 1/2 they show 0, 3, 1, 2.  Choice 1
    is the first button of one and the third of the other. *)
Lemma shuffle_does_not_interfere_witness :
  let s := run (initialState [qA; qB]) [(at_ 0, BtnTest)] in
  let s1 := settle (renderQuestion (at_ 5) s) in
  let s2 := settle (renderQuestion (at_half 5) s) in
  let t1 := step s1 (at_ 10, ChoiceDblClick 0) in
  let t2 := step s2 (at_half 10, ChoiceDblClick 2) in
  choiceButtons s1 = [1; 2; 3; 0]%nat
  /\ choiceButtons s2 = [0; 3; 1; 2]%nat
  /\ choiceButtons s1 ≡ₚ seq 0 (length (q_choices qA))
  /\ choiceButtons s2 ≡ₚ seq 0 (length (q_choices qA))
  /\ (1 < length (q_choices qA))%nat
  /\ answerAt t1 (q_id qA)
     = Some {| isCorrect := bool_decide (Z.of_nat 1 = q_correctIndex qA);
               selectedIndex := Z.of_nat 1;
               timestamp := now (at_ 10);
               errorTag := tag_undefined |}
  /\ answerAt t2 (q_id qA) = answerAt t1 (q_id qA)
  /\ answers t2 = answers t1
  /\ heap t2 = heap t1
  /\ correctCount t2 = correctCount t1.
Proof.
  split; [reflexivity|]. split; [reflexivity|].
  apply (shuffle_does_not_interfere (at_ 5) (at_half 5) (at_ 10) (at_half 10)
           (run (initialState [qA; qB]) [(at_ 0, BtnTest)]) qA 0 2 1).
  - reflexivity.
  - reflexivity.
  - reflexivity.
  - reflexivity.
Defined.

(** * Scenarios *)

(** Three questions in PRACTICE mode answered correct, incorrect, correct,
    each sequence running to its end: the round is over (the alert was
    shown and the start screen is back), two records are correct out of
    three questions. *)
Example practice_round :
  let s := run (initialState [qA; qB; qC])
             [(at_ 0, BtnPractice);
              (at_ 100, ChoiceDblClick 0); (at_ 600, TimerFires 0);
              (at_ 800, TimerFires 0);
              (at_ 1000, ChoiceDblClick 0); (at_ 1500, TimerFires 0);
              (at_ 1700, TimerFires 0);
              (at_ 2000, ChoiceDblClick 0); (at_ 2500, TimerFires 0);
              (at_ 2700, TimerFires 0)] in
  (isCorrect <$> answerAt s "a") = Some true
  /\ (isCorrect <$> answerAt s "b") = Some false
  /\ (isCorrect <$> answerAt s "c") = Some true
  /\ correctCount s = 2%nat /\ length (questions s) = 3%nat
  /\ alerts s = 1%nat /\ startScreenHidden s = false /\ timers s = [].
Proof. vm_compute. by repeat split. Qed.

(** TEST mode at index 2 of three questions: item 0 and item 2 (the current
    one) are refused, there is no item 3, item 1 is accepted. *)
Example test_navigation :
  let s := run (initialState [qA; qB; qC])
             [(at_ 0, BtnTest); (at_ 10, ChoiceDblClick 0);
              (at_ 20, ChoiceDblClick 0)] in
  currentQuestionIndex s = 2
  /\ step s (at_ 30, ProgressClick 0) = s
  /\ step s (at_ 30, ProgressClick 2) = s
  /\ step s (at_ 30, ProgressClick 3) = s
  /\ currentQuestionIndex (step s (at_ 30, ProgressClick 1)) = 1.
Proof. vm_compute. by repeat split. Qed.

(** * More on the event loop *)

Lemma run_preserves (P : State -> Prop) (A : Env * Action -> Prop) evs s :
  (forall s ev, A ev -> P s -> P (step s ev)) ->
  Forall A evs -> P s -> P (run s evs).
Proof.
  intros Hstep. revert s.
  induction evs as [|ev evs IH]; intros s Hall HP; [done|].
  inversion Hall; subst. simpl. apply IH; [done|]. by apply Hstep.
Qed.

Lemma run_app s evs1 evs2 : run s (evs1 ++ evs2) = run (run s evs1) evs2.
Proof. apply foldl_app. Qed.

Lemma page_only_refl s : page_only s s.
Proof. by repeat split. Qed.

Lemma renderQuestion_page_only e s : page_only s (settle (renderQuestion e s)).
Proof.
  unfold renderQuestion.
  destruct (questionAt _ _) as [q|]; [|apply page_only_refl].
  rewrite updateProgressBar_settle. simpl.
  destruct (mode s), (answers s !! q_id q); by repeat split.
Qed.

(** What an action does to [state.answers]: it empties the mapping (a new
    game), leaves it alone, or binds the id of the current question to a
    newly allocated record. *)
Lemma dispatch_answers a e s :
  let s' := settle (dispatch a e s) in
  answers s' = ∅
  \/ answers s' = answers s
  \/ exists q sel, questionAt s (currentQuestionIndex s) = Some q
                   /\ answers s' = <[q_id q := length (heap s)]> (answers s)
                   /\ heap s' = heap s ++ [submitted sel q e].
Proof.
  destruct a; simpl.
  - left. unfold startGame.
    set (s2 := set_resultsScreenHidden _ _).
    destruct (renderQuestion_session e s2) as (_&Ha&_).
    destruct (renderQuestion e s2) as [s3|s3]; simpl in *; [|done].
    unfold renderProgressBar. by rewrite updateProgressBar_settle.
  - left. unfold startGame.
    set (s2 := set_resultsScreenHidden _ _).
    destruct (renderQuestion_session e s2) as (_&Ha&_).
    destruct (renderQuestion e s2) as [s3|s3]; simpl in *; [|done].
    unfold renderProgressBar. by rewrite updateProgressBar_settle.
  - by right; left.
  - right; left. by destruct (choiceButtons s !! pos).
  - destruct (choiceButtons s !! pos) as [k|]; [|by right; left].
    destruct (questionAt s (currentQuestionIndex s)) as [q|] eqn:Hq.
    + right; right. exists q, (Z.of_nat k). split; [done|].
      by destruct (handleChoice_store (Z.of_nat k) e s q Hq).
    + right; left. unfold handleChoice. simpl. by rewrite Hq.
  - right; left. case_decide; [|done]. unfold progressClick.
    destruct (mode s).
    + by destruct (renderQuestion_session e
        (set_currentQuestionIndex (Z.of_nat idx) s)) as (_&?&_).
    + case_decide; [|done].
      by destruct (renderQuestion_session e
        (set_currentQuestionIndex (Z.of_nat idx) s)) as (_&?&_).
  - right; left. apply tagClick_answers.
  - right; left. unfold fireTimer.
    destruct (timers s !! k) as [[d [q|]]|]; [done| |done]. simpl.
    by destruct (nextQuestion_session e (set_timers (delete k (timers s)) s))
      as (_&?&_).
Qed.

Lemma questionAt_elem_of s i q : questionAt s i = Some q -> q ∈ questions s.
Proof.
  unfold questionAt. case_decide; [|done]. apply list_elem_of_lookup_2.
Qed.

Lemma step_keys_are_ids s ev : keys_are_ids s -> keys_are_ids (step s ev).
Proof.
  intros HK k. unfold step. rewrite dispatch_questions.
  destruct (dispatch_answers ev.2 ev.1 s) as [Ha|[Ha|(q&sel&Hq&Ha&_)]];
    rewrite Ha.
  - rewrite lookup_empty. by intros [? ?].
  - apply HK.
  - destruct (decide (q_id q = k)) as [<-|Hne].
    + intros _. exists q. split; [|done]. by eapply questionAt_elem_of.
    + rewrite lookup_insert_ne by done. apply HK.
Qed.


(** X2: the keys of [state.answers] are always ids of loaded questions: a
    record is only ever stored under the id of the question at the current
    index, and a new game empties the mapping. *)
Theorem answers_only_for_loaded_questions
    (qs : list Question) (evs : list (Env * Action)) (k : string) :
  is_Some (answers (run (initialState qs) evs) !! k) ->
  exists q, q ∈ qs /\ q_id q = k.
Proof.
  intros Hk.
  assert (HK : keys_are_ids (run (initialState qs) evs)).
  { apply (run_preserves keys_are_ids (λ _, True)).
    - intros s ev _. apply step_keys_are_ids.
    - by apply Forall_forall.
    - intros k'. simpl. rewrite lookup_empty. by intros [? ?]. }
  destruct (HK k Hk) as (q&Hq&Hid). rewrite run_questions in Hq. eauto.
Qed.

Lemma answers_only_for_loaded_questions_witness :
  exists q, q ∈ [qA; qB] /\ q_id q = "a"%string.
Proof.
  apply (answers_only_for_loaded_questions [qA; qB]
           [(at_ 0, BtnTest); (at_ 10, ChoiceDblClick 0)] "a").
  vm_compute. by eexists.
Defined.

(** What an action does to the record objects: nothing, one allocation, or
    one error tag rewritten. *)
Lemma dispatch_heap a e s :
  let s' := settle (dispatch a e s) in
  heap s' = heap s
  \/ (exists obj, heap s' = heap s ++ [obj])
  \/ (exists l r tag, heap s !! l = Some r
                      /\ heap s' = <[l := toggled r tag]> (heap s)).
Proof.
  destruct a; simpl.
  - left. apply startGame_frame.
  - left. apply startGame_frame.
  - by left.
  - left. by destruct (choiceButtons s !! pos).
  - destruct (choiceButtons s !! pos) as [k|]; [|by left].
    destruct (questionAt s (currentQuestionIndex s)) as [q|] eqn:Hq.
    + right; left. exists (submitted (Z.of_nat k) q e).
      by destruct (handleChoice_store (Z.of_nat k) e s q Hq).
    + left. unfold handleChoice. simpl. by rewrite Hq.
  - left. case_decide; [|done]. unfold progressClick.
    destruct (mode s).
    + by destruct (renderQuestion_session e
        (set_currentQuestionIndex (Z.of_nat idx) s)) as (_&_&?&_).
    + case_decide; [|done].
      by destruct (renderQuestion_session e
        (set_currentQuestionIndex (Z.of_nat idx) s)) as (_&_&?&_).
  - destruct (reviewList s !! item) as [it|] eqn:Hk;
      [|left; unfold tagClick; by rewrite Hk].
    destruct (r_isCorrect it) eqn:Hc;
      [left; by rewrite (tagClick_correct _ _ _ it)|].
    destruct (r_ans it) as [l|] eqn:Ha;
      [|left; by rewrite (tagClick_no_record _ _ _ it)].
    destruct (heap s !! l) as [r|] eqn:Hl;
      [|left; by rewrite (tagClick_dangling _ _ _ it l)].
    right; right. exists l, r, tag. split; [done|].
    by rewrite (tagClick_record _ _ _ it l r).
  - left. unfold fireTimer.
    destruct (timers s !! k) as [[d [q|]]|]; [done| |done]. simpl.
    by destruct (nextQuestion_session e (set_timers (delete k (timers s)) s))
      as (_&_&?&_).
Qed.

Lemma step_keeps_submission s ev l r :
  heap s !! l = Some r ->
  exists r', heap (step s ev) !! l = Some r' /\ same_submission r r'.
Proof.
  intros Hl. unfold step.
  destruct (dispatch_heap ev.2 ev.1 s) as [Hh|[(obj&Hh)|(l0&r0&tag&Hl0&Hh)]];
    rewrite Hh.
  - by exists r.
  - exists r. split; [|done]. by apply lookup_app_l_Some.
  - destruct (decide (l0 = l)) as [->|Hne].
    + exists (toggled r0 tag). split.
      * apply list_lookup_insert_eq. by eapply lookup_lt_Some.
      * assert (r0 = r) as -> by congruence. done.
    + exists r. split; [|done]. by rewrite list_lookup_insert_ne.
Qed.

(** X3: a record object, once created, is never removed, and its verdict,
    selection and timestamp never change, whatever happens afterwards; only
    its error tag can be rewritten (a resubmission creates a new object
    instead). *)
Theorem records_keep_their_submission
    (evs : list (Env * Action)) (s : State) (l : nat) (r : Answer) :
  heap s !! l = Some r ->
  exists r', heap (run s evs) !! l = Some r'
             /\ isCorrect r' = isCorrect r
             /\ selectedIndex r' = selectedIndex r
             /\ timestamp r' = timestamp r.
Proof.
  revert s r. induction evs as [|ev evs IH]; intros s r Hl; [by exists r|].
  destruct (step_keeps_submission s ev l r Hl) as (r1&Hl1&H1&H2&H3).
  destruct (IH _ _ Hl1) as (r2&Hl2&H4&H5&H6).
  exists r2. simpl. repeat split; congruence.
Qed.

Lemma records_keep_their_submission_witness :
  exists r', heap (run resubmitState
                     [(at_ 10, ChoiceDblClick 0); (at_ 20, TagClick 0 Misread)])
               !! 0%nat = Some r'
             /\ isCorrect r' = false
             /\ selectedIndex r' = 0
             /\ timestamp r' = 5.
Proof.
  apply (records_keep_their_submission
           [(at_ 10, ChoiceDblClick 0); (at_ 20, TagClick 0 Misread)]
           resubmitState 0
           {| isCorrect := false; selectedIndex := 0; timestamp := 5;
              errorTag := tag_is Misread |}).
  reflexivity.
Defined.

(** ** A page on which only PRACTICE games are played *)

Lemma nextQuestion_practice e s :
  mode s = practice ->
  let s' := settle (nextQuestion e s) in
  mode s' = practice
  /\ resultsScreenHidden s' = resultsScreenHidden s
  /\ scoreDisplay s' = scoreDisplay s
  /\ reviewList s' = reviewList s.
Proof.
  intros Hm. unfold nextQuestion, updateProgressBar.
  case_decide; simpl; [|done].
  case_decide; simpl.
  - destruct (renderQuestion_page_only e
      (set_currentQuestionIndex (currentQuestionIndex s + 1) s))
      as (_&_&_&?&_&_&_&_&?&_&?&?). simpl in *. repeat split; congruence.
  - unfold finishGame. rewrite Hm. done.
Qed.

Lemma step_PracticeOnly s ev :
  ev.2 <> BtnTest -> PracticeOnly s -> PracticeOnly (step s ev).
Proof.
  intros Hne [Hm Hr Hs Hl]. unfold step. destruct ev as [e a]. simpl in *.
  destruct a; simpl; try done.
  - unfold startGame. set (s2 := set_resultsScreenHidden _ _).
    assert (PracticeOnly s2) as [Hm2 Hr2 Hs2 Hl2] by (by constructor).
    destruct (renderQuestion_page_only e s2)
      as (_&_&_&Hm'&_&_&_&_&Hr'&_&Hs'&Hl').
    clearbody s2.
    destruct (renderQuestion e s2) as [s3|s3]; simpl in *.
    + unfold renderProgressBar. rewrite updateProgressBar_settle.
      constructor; simpl; congruence.
    + constructor; simpl; congruence.
  - by destruct (choiceButtons s !! pos).
  - destruct (choiceButtons s !! pos) as [k|]; [|done].
    unfold handleChoice. simpl.
    destruct (questionAt s (currentQuestionIndex s)) as [q|]; [|done].
    simpl. by rewrite Hm.
  - case_decide; [|done]. unfold progressClick. rewrite Hm.
    destruct (renderQuestion_page_only e
      (set_currentQuestionIndex (Z.of_nat idx) s))
      as (_&_&_&?&_&_&_&_&?&_&?&?).
    simpl in *. constructor; congruence.
  - unfold tagClick. by rewrite Hl.
  - unfold fireTimer. destruct (timers s !! k) as [[d [q|]]|]; [done| |done].
    simpl.
    destruct (nextQuestion_practice e (set_timers (delete k (timers s)) s) Hm)
      as (?&?&?&?).
    simpl in *. constructor; congruence.
Qed.

(** X4: as long as the Test button is never clicked, the results screen
    stays hidden and no score or review entry is ever produced: finishing a
    PRACTICE round never calls showResults. *)
Theorem practice_never_shows_results
    (qs : list Question) (evs : list (Env * Action)) :
  without BtnTest evs ->
  let s := run (initialState qs) evs in
  mode s = practice /\ resultsScreenHidden s = true
  /\ scoreDisplay s = None /\ reviewList s = [].
Proof.
  intros Hevs s.
  assert (HP : PracticeOnly s).
  { apply (run_preserves PracticeOnly (λ ev, ev.2 <> BtnTest)); [|done|done].
    intros s0 ev. apply step_PracticeOnly. }
  by destruct HP.
Qed.

Lemma practice_never_shows_results_witness :
  let s := run (initialState [qA])
             [(at_ 0, BtnPractice); (at_ 10, ChoiceDblClick 0);
              (at_ 510, TimerFires 0); (at_ 710, TimerFires 0)] in
  mode s = practice /\ resultsScreenHidden s = true
  /\ scoreDisplay s = None /\ reviewList s = [].
Proof.
  apply (practice_never_shows_results [qA]
           [(at_ 0, BtnPractice); (at_ 10, ChoiceDblClick 0);
            (at_ 510, TimerFires 0); (at_ 710, TimerFires 0)]).
  repeat (constructor; [discriminate|]). constructor.
Defined.

(** ** A page on which only TEST games are played *)

Lemma renderQuestion_test e s :
  mode s = test -> feedbackHidden s = true ->
  feedbackHidden (settle (renderQuestion e s)) = true
  /\ explanation (settle (renderQuestion e s)) = explanation s.
Proof.
  intros Hm Hf. unfold renderQuestion.
  destruct (questionAt _ _) as [q|]; [|done].
  rewrite updateProgressBar_settle. simpl. by rewrite Hm.
Qed.

Lemma renderQuestion_TestOnly e s :
  mode s = test -> TestOnly s -> TestOnly (settle (renderQuestion e s)).
Proof.
  intros Hm [_ Ht Hf He Hal].
  destruct (renderQuestion_test e s Hm Hf) as [Hf' He'].
  destruct (renderQuestion_page_only e s) as (_&_&_&Hm'&_&Ht'&Ha'&_).
  constructor; try congruence; left; congruence.
Qed.

Lemma questionAt_lookup s i q q' :
  questionAt s (Z.of_nat i) = Some q -> questions s !! i = Some q' -> q' = q.
Proof.
  unfold questionAt. rewrite decide_True by lia. rewrite Nat2Z.id. congruence.
Qed.

Lemma nextQuestion_test e s q :
  mode s = test -> TestOnly s -> Answered s ->
  questionAt s (currentQuestionIndex s) = Some q ->
  is_Some (answers s !! q_id q) ->
  TestOnly (settle (nextQuestion e s)) /\ Answered (settle (nextQuestion e s)).
Proof.
  intros Hm HT [Hlo Hb Hr] Hq Hans.
  assert (Hcur : forall i q', Z.of_nat i = currentQuestionIndex s ->
            questions s !! i = Some q' -> is_Some (answers s !! q_id q')).
  { intros i q' Hi Hl. rewrite <- Hi in Hq.
    by rewrite (questionAt_lookup s i q q' Hq Hl). }
  unfold nextQuestion, updateProgressBar.
  case_decide; simpl; [|by split].
  case_decide as Hlt; simpl.
  - set (s1 := set_currentQuestionIndex _ s).
    split.
    { apply renderQuestion_TestOnly; [exact Hm|].
      destruct HT as [? ? ? ? ?]. by constructor. }
    destruct (renderQuestion_page_only e s1)
      as (Hq'&Hc'&Ha'&_&_&_&_&_&Hr'&_).
    subst s1. simpl in *. constructor.
    + lia.
    + intros i q' Hi Hl. rewrite Hq' in Hl. rewrite Ha'.
      destruct (decide (Z.of_nat i = currentQuestionIndex s)).
      * by apply (Hcur i).
      * apply (Hb i); [lia|done].
    + intros Hvis q' Hin. rewrite Hq' in Hin. rewrite Ha'.
      apply Hr; congruence.
  - unfold finishGame. rewrite Hm. split.
    + destruct HT as [? ? ? ? ?]. constructor; simpl; try done; by left.
    + constructor; simpl; try done.
      intros _ q' Hin. apply list_elem_of_lookup in Hin as [i Hi].
      pose proof (lookup_lt_Some _ _ _ Hi) as Hlen.
      apply questionAt_range in Hq.
      destruct (decide (Z.of_nat i = currentQuestionIndex s)).
      * by apply (Hcur i).
      * apply (Hb i); [lia|done].
Qed.

Lemma Answered_insert s s' k l :
  Answered s ->
  questions s' = questions s ->
  currentQuestionIndex s' = currentQuestionIndex s ->
  resultsScreenHidden s' = resultsScreenHidden s ->
  answers s' = <[k := l]> (answers s) ->
  Answered s'.
Proof.
  intros [Hlo Hb Hr] Hq Hc Hres Ha. constructor.
  - congruence.
  - intros i q Hi Hl. rewrite Ha. apply lookup_insert_is_Some'. right.
    apply (Hb i); congruence.
  - intros Hvis q Hin. rewrite Ha. apply lookup_insert_is_Some'. right.
    apply Hr; congruence.
Qed.

Lemma step_TestOnly_Answered s ev :
  ev.2 <> BtnPractice ->
  TestOnly s /\ Answered s -> TestOnly (step s ev) /\ Answered (step s ev).
Proof.
  intros Hne [HT HA]. pose proof HT as [Hm Ht Hf He Hal].
  pose proof HA as [Hlo Hb Hr].
  unfold step. destruct ev as [e a]. simpl in *.
  destruct a; simpl.
  - done.
  - (* BtnTest *)
    unfold startGame. set (s2 := set_resultsScreenHidden _ _).
    assert (HT2 : TestOnly s2) by (constructor; try done; by left).
    assert (Hm2 : mode s2 = test) by done.
    assert (Hc2 : currentQuestionIndex s2 = 0) by done.
    assert (Hr2 : resultsScreenHidden s2 = true) by done.
    pose proof (renderQuestion_TestOnly e s2 Hm2 HT2) as HT3.
    pose proof (renderQuestion_page_only e s2) as Hpo.
    clearbody s2.
    destruct Hpo as (_&Hc&_&Hm3&_&_&_&_&Hr3&_).
    assert (HA3 : Answered (settle (renderQuestion e s2))).
    { constructor.
      - lia.
      - intros i q Hi. lia.
      - intros Hvis. congruence. }
    destruct (renderQuestion e s2) as [s3|s3]; simpl in *; [|done].
    unfold renderProgressBar. rewrite updateProgressBar_settle.
    destruct HT3 as [_ ? ? ? ?]. destruct HA3 as [? ? ?].
    split; constructor; simpl; try done; left; congruence.
  - (* BtnRestart *)
    split; [by constructor|].
    constructor; simpl; [done | exact Hb | done].
  - (* ChoiceClick *)
    by destruct (choiceButtons s !! pos).
  - (* ChoiceDblClick *)
    destruct (choiceButtons s !! pos) as [k|] eqn:Hp; [|done].
    destruct Hm as [Hm|[Hnil _]]; [|by rewrite Hnil in Hp].
    unfold handleChoice. simpl.
    destruct (questionAt s (currentQuestionIndex s)) as [q|] eqn:Hq; [|done].
    simpl. rewrite Hm.
    apply (nextQuestion_test _ _ q); simpl; try done.
    + constructor; try done; by left.
    + by apply (Answered_insert s _ (q_id q) (length (heap s))).
    + rewrite lookup_insert_eq. by eexists.
  - (* ProgressClick *)
    case_decide as Hidx; [|done].
    destruct Hm as [Hm|[_ Hz]]; [|lia].
    unfold progressClick. rewrite Hm.
    case_decide as Hprev; [|done].
    set (s1 := set_currentQuestionIndex _ s).
    split.
    + apply renderQuestion_TestOnly; [exact Hm|]. constructor; try done; by left.
    + destruct (renderQuestion_page_only e s1)
        as (Hq'&Hc'&Ha'&_&_&_&_&_&Hr'&_).
      subst s1. simpl in *. constructor.
      * lia.
      * intros i q Hi Hl. rewrite Hq' in Hl. rewrite Ha'.
        apply (Hb i); [lia|done].
      * intros Hvis q Hin. rewrite Hq' in Hin. rewrite Ha'.
        apply Hr; congruence.
  - (* TagClick *)
    unfold tagClick. destruct (reviewList s !! item) as [it|]; [|done].
    destruct (r_isCorrect it); [done|]. simpl.
    destruct (r_ans it) as [l|]; [destruct (heap s !! l)|];
      (split; [by constructor|]; constructor; simpl;
       [done | exact Hb | exact Hr]).
  - (* TimerFires *)
    unfold fireTimer. by rewrite Ht.
Qed.

Lemma initialState_TestOnly_Answered qs :
  TestOnly (initialState qs) /\ Answered (initialState qs).
Proof.
  split; constructor; simpl; try done.
  - by right.
  - intros i q Hi. lia.
Qed.

Lemma run_TestOnly_Answered qs evs :
  without BtnPractice evs ->
  TestOnly (run (initialState qs) evs) /\ Answered (run (initialState qs) evs).
Proof.
  intros Hevs.
  apply (run_preserves (λ s, TestOnly s /\ Answered s)
           (λ ev, ev.2 <> BtnPractice)); [|done|].
  - intros s ev. apply step_TestOnly_Answered.
  - apply initialState_TestOnly_Answered.
Qed.



(** X6: as long as the Practice button is never clicked, every question
    before the current one has a record, and whenever the results screen is
    up every question has one: a TEST game cannot reach the results with a
    question left unanswered. *)
Theorem results_only_when_all_answered
    (qs : list Question) (evs : list (Env * Action)) :
  without BtnPractice evs ->
  let s := run (initialState qs) evs in
  (forall i q, Z.of_nat i < currentQuestionIndex s -> qs !! i = Some q ->
     is_Some (answers s !! q_id q))
  /\ (resultsScreenHidden s = false ->
      forall q, q ∈ qs -> is_Some (answers s !! q_id q)).
Proof.
  intros Hevs s.
  destruct (run_TestOnly_Answered qs evs Hevs) as [_ [_ Hb Hr]].
  fold s in Hb, Hr. subst s. rewrite run_questions in Hb, Hr. by split.
Qed.

Lemma results_only_when_all_answered_witness :
  let s := run (initialState [qA; qB])
             [(at_ 0, BtnTest); (at_ 10, ChoiceDblClick 0);
              (at_ 20, ChoiceDblClick 0)] in
  (forall i q, Z.of_nat i < currentQuestionIndex s ->
     [qA; qB] !! i = Some q -> is_Some (answers s !! q_id q))
  /\ (resultsScreenHidden s = false ->
      forall q, q ∈ [qA; qB] -> is_Some (answers s !! q_id q)).
Proof.
  apply (results_only_when_all_answered [qA; qB]
           [(at_ 0, BtnTest); (at_ 10, ChoiceDblClick 0);
            (at_ 20, ChoiceDblClick 0)]).
  repeat (constructor; [discriminate|]). constructor.
Defined.

(** ** The score and the review list *)

Lemma shownCorrect_reviewItems s (qs : list Question) :
  shownCorrect (reviewItem s <$> qs)
  = length (filter (λ k, from_option isCorrect false (records s !! k) = true)
              (q_id <$> qs)).
Proof.
  unfold shownCorrect. induction qs as [|q qs IH]; [done|].
  rewrite !fmap_cons, !filter_cons.
  change (r_isCorrect (reviewItem s q))
    with (from_option isCorrect false (answerAt s (q_id q))).
  rewrite records_lookup.
  destruct (decide (from_option isCorrect false (answerAt s (q_id q)) = true));
    simpl; by rewrite IH.
Qed.

Lemma size_correct_records s :
  keys_are_ids s -> NoDup (q_id <$> questions s) ->
  size (filter (λ kv : string * Answer, isCorrect kv.2 = true) (records s))
  = length (filter (λ k, from_option isCorrect false (records s !! k) = true)
              (q_id <$> questions s)).
Proof.
  intros HK Hnd.
  rewrite <- size_dom.
  rewrite <- (size_list_to_set (C:=gset string)) by (by apply NoDup_filter).
  f_equal. apply set_eq. intros k.
  rewrite elem_of_dom, elem_of_list_to_set, list_elem_of_filter. split.
  - intros [a [Ha Hc]%map_lookup_filter_Some]. simpl in Hc.
    split; [by rewrite Ha|].
    assert (Hk : is_Some (answers s !! k)).
    { rewrite records_lookup in Ha. unfold answerAt in Ha.
      destruct (answers s !! k); [by eexists|done]. }
    destruct (HK k Hk) as (q&Hq&<-). by apply list_elem_of_fmap_2.
  - intros [Hc _]. destruct (records s !! k) as [a|] eqn:Ha; [|done].
    exists a. by apply map_lookup_filter_Some.
Qed.

Lemma run_keys_are_ids qs evs : keys_are_ids (run (initialState qs) evs).
Proof.
  apply (run_preserves keys_are_ids (λ _, True)).
  - intros s ev _. apply step_keys_are_ids.
  - by apply Forall_forall.
  - intros k'. simpl. rewrite lookup_empty. by intros [? ?].
Qed.

Lemma run_no_prototype_record qs evs :
  protoKey ∉ (q_id <$> qs) ->
  answers (run (initialState qs) evs) !! protoKey = None.
Proof.
  intros Hp.
  destruct (answers (run (initialState qs) evs) !! protoKey) as [l|] eqn:Hl;
    [|done].
  destruct (run_keys_are_ids qs evs protoKey) as (q&Hq&Hid); [by eexists|].
  rewrite run_questions in Hq. simpl in Hq.
  destruct Hp. rewrite <- Hid. by apply list_elem_of_fmap_2.
Qed.

(** X7: when the question ids are pairwise different and none of them is
    [__proto__], the score that showResults displays is the number of review
    entries it shows as correct, out of the number of questions. *)
Theorem score_counts_entries_shown_correct
    (qs : list Question) (evs : list (Env * Action)) :
  NoDup (q_id <$> qs) ->
  protoKey ∉ (q_id <$> qs) ->
  let s := showResults (run (initialState qs) evs) in
  scoreDisplay s = Some (shownCorrect (reviewList s), length qs).
Proof.
  intros Hnd Hp s. subst s.
  pose proof (run_no_prototype_record qs evs Hp) as Hnone.
  set (s := run (initialState qs) evs) in *.
  assert (Hqs : questions s = qs) by apply run_questions.
  change (scoreDisplay (showResults s))
    with (Some (correctCount s, length (questions s))).
  rewrite reviewList_showResults, shownCorrect_reviewItems.
  rewrite correctCount_records by done.
  rewrite size_correct_records; [by rewrite Hqs| |].
  - apply run_keys_are_ids.
  - by rewrite Hqs.
Qed.

Lemma score_counts_entries_shown_correct_witness :
  let s := showResults
             (run (initialState [qA; qB])
                [(at_ 0, BtnTest); (at_ 10, ChoiceDblClick 0);
                 (at_ 20, ChoiceDblClick 0)]) in
  scoreDisplay s = Some (shownCorrect (reviewList s), length [qA; qB]).
Proof.
  apply (score_counts_entries_shown_correct [qA; qB]
           [(at_ 0, BtnTest); (at_ 10, ChoiceDblClick 0);
            (at_ 20, ChoiceDblClick 0)]).
  - apply (bool_decide_eq_true_1 (NoDup (q_id <$> [qA; qB]))). reflexivity.
  - apply (bool_decide_eq_true_1 (protoKey ∉ q_id <$> [qA; qB])). reflexivity.
Defined.

(** ** Submitting in TEST mode *)

Lemma reviewItem_session s s' q :
  same_session s s' -> reviewItem s' q = reviewItem s q.
Proof. intros (_&Ha&Hh&_). unfold reviewItem. by rewrite Ha, Hh. Qed.

Lemma renderQuestion_feedback e s q :
  questionAt s (currentQuestionIndex s) = Some q ->
  let s' := settle (renderQuestion e s) in
  (feedbackHidden s' = false
   <-> mode s = practice /\ is_Some (answers s !! q_id q))
  /\ (feedbackHidden s' = false -> explanation s' = Some q)
  /\ (feedbackHidden s' = true -> explanation s' = explanation s).
Proof.
  intros Hq. unfold renderQuestion. rewrite Hq, updateProgressBar_settle.
  simpl. destruct (mode s), (answers s !! q_id q) eqn:Ha; simpl;
    repeat split; try done; try (by intros [? ?]); try (by intros [? [? ?]]);
    try (by eexists).
Qed.







(** ** One feedback sequence in PRACTICE mode *)

(** X9: in PRACTICE mode with nothing pending, a confirmation followed by
    its two timer expiries runs as one sequence: the overlay callback is
    due 500 ms after the confirmation; when it fires the explanation of the
    answered question is shown and the advance is due 200 ms later; when
    that fires nothing is left pending, the record is the one submitted, and
    the index has moved on by one, or, on the last question, the round is
    over (one alert, start screen back up). *)
Theorem practice_sequence_runs_to_next_question
    (e1 e2 e3 : Env) (s : State) (q : Question) (pos k : nat) :
  mode s = practice ->
  timers s = [] ->
  questionAt s (currentQuestionIndex s) = Some q ->
  choiceButtons s !! pos = Some k ->
  (progressItems s <= length (questions s))%nat ->
  let s1 := step s (e1, ChoiceDblClick pos) in
  let s2 := step s1 (e2, TimerFires 0) in
  let s3 := step s2 (e3, TimerFires 0) in
  let last := Z.of_nat (length (questions s)) - 1 in
  timers s1 = [(now e1 + 500, OverlayTimeout q)]
  /\ currentQuestionIndex s1 = currentQuestionIndex s
  /\ timers s2 = [(now e2 + 200, NextTimeout)]
  /\ explanation s2 = Some q /\ feedbackHidden s2 = false
  /\ currentQuestionIndex s2 = currentQuestionIndex s
  /\ timers s3 = []
  /\ answerAt s3 (q_id q) = Some (submitted (Z.of_nat k) q e1)
  /\ (currentQuestionIndex s < last ->
      currentQuestionIndex s3 = currentQuestionIndex s + 1
      /\ questionText s3 = questionAt s (currentQuestionIndex s + 1)
      /\ alerts s3 = alerts s
      /\ startScreenHidden s3 = startScreenHidden s)
  /\ (currentQuestionIndex s = last ->
      currentQuestionIndex s3 = currentQuestionIndex s
      /\ alerts s3 = S (alerts s)
      /\ startScreenHidden s3 = false).
Proof.
  intros Hm Ht Hq Hp Hitems s1 s2 s3 last.
  assert (Hs1 : s1 = set_timers [(now e1 + 500, OverlayTimeout q)]
            (set_answers (<[q_id q := length (heap s)]> (answers s))
               (set_heap (heap s ++ [submitted (Z.of_nat k) q e1]) s))).
  { subst s1. unfold step. simpl. rewrite Hp.
    rewrite (handleChoice_practice _ _ _ q) by done. simpl. by rewrite Ht. }
  assert (Hs2 : s2 = set_timers [(now e2 + 200, NextTimeout)]
            (set_feedbackHidden false (set_explanation (Some q)
               (set_timers [] s1)))).
  { subst s2. unfold step. simpl. unfold fireTimer. rewrite Hs1. by simpl. }
  set (s2' := set_timers [] s2).
  assert (Hs3 : s3 = settle (nextQuestion e3 s2')).
  { subst s3 s2'. unfold step. simpl. unfold fireTimer. rewrite Hs2. by simpl. }
  assert (Ha2 : answerAt s2' (q_id q) = Some (submitted (Z.of_nat k) q e1)).
  { subst s2'. rewrite Hs2, Hs1. unfold answerAt. simpl.
    rewrite lookup_insert_eq. simpl. rewrite lookup_app_r by lia.
    by rewrite Nat.sub_diag. }
  destruct (nextQuestion_session e3 s2') as (_&Ha&Hh&_&Htm).
  rewrite <- Hs3 in Ha, Hh, Htm.
  split; [by rewrite Hs1|]. split; [by rewrite Hs1|].
  split; [by rewrite Hs2|]. split; [by rewrite Hs2|].
  split; [by rewrite Hs2|]. split; [by rewrite Hs2, Hs1|].
  split; [by rewrite Htm|].
  split; [unfold answerAt in *; by rewrite Ha, Hh|].
  assert (Hq2 : questions s2' = questions s) by (subst s2'; by rewrite Hs2, Hs1).
  assert (Hc2 : currentQuestionIndex s2' = currentQuestionIndex s)
    by (subst s2'; by rewrite Hs2, Hs1).
  assert (Hi2 : progressItems s2' = progressItems s)
    by (subst s2'; by rewrite Hs2, Hs1).
  assert (Hm2 : mode s2' = practice) by (subst s2'; by rewrite Hs2, Hs1).
  assert (Hal2 : alerts s2' = alerts s) by (subst s2'; by rewrite Hs2, Hs1).
  assert (Hst2 : startScreenHidden s2' = startScreenHidden s)
    by (subst s2'; by rewrite Hs2, Hs1).
  rewrite Hs3. clearbody s2'. clear Hs3 Ha Hh Htm.
  unfold nextQuestion. rewrite updateProgressBar_ok by (by rewrite Hi2, Hq2).
  simpl. rewrite Hq2, Hc2. case_decide as Hlt.
  - split; [|subst last; lia]. intros _.
    set (s4 := set_currentQuestionIndex _ s2').
    destruct (renderQuestion_page_only e3 s4)
      as (_&Hc&_&_&_&_&Hal&Hst&_).
    destruct (questionAt_is_Some s (currentQuestionIndex s + 1)) as [q' Hq'].
    { apply questionAt_range in Hq. lia. }
    assert (Hq4 : questionAt s4 (currentQuestionIndex s4) = Some q').
    { subst s4. unfold questionAt in *. simpl. by rewrite Hq2. }
    destruct (renderQuestion_buttons e3 s4 q' Hq4) as [_ Htext].
    rewrite Hq'. subst s4. simpl in *. repeat split; congruence.
  - split; [subst last; lia|]. intros _.
    unfold finishGame. rewrite Hm2. simpl. repeat split; congruence.
Qed.

Lemma practice_sequence_runs_to_next_question_witness :
  let s := run (initialState [qA; qB]) [(at_ 0, BtnPractice)] in
  let s1 := step s (at_ 10, ChoiceDblClick 0) in
  let s2 := step s1 (at_ 510, TimerFires 0) in
  let s3 := step s2 (at_ 710, TimerFires 0) in
  let last := Z.of_nat (length (questions s)) - 1 in
  timers s1 = [(now (at_ 10) + 500, OverlayTimeout qA)]
  /\ currentQuestionIndex s1 = currentQuestionIndex s
  /\ timers s2 = [(now (at_ 510) + 200, NextTimeout)]
  /\ explanation s2 = Some qA /\ feedbackHidden s2 = false
  /\ currentQuestionIndex s2 = currentQuestionIndex s
  /\ timers s3 = []
  /\ answerAt s3 (q_id qA) = Some (submitted (Z.of_nat 1) qA (at_ 10))
  /\ (currentQuestionIndex s < last ->
      currentQuestionIndex s3 = currentQuestionIndex s + 1
      /\ questionText s3 = questionAt s (currentQuestionIndex s + 1)
      /\ alerts s3 = alerts s
      /\ startScreenHidden s3 = startScreenHidden s)
  /\ (currentQuestionIndex s = last ->
      currentQuestionIndex s3 = currentQuestionIndex s
      /\ alerts s3 = S (alerts s)
      /\ startScreenHidden s3 = false).
Proof.
  apply (practice_sequence_runs_to_next_question (at_ 10) (at_ 510) (at_ 710)
           (run (initialState [qA; qB]) [(at_ 0, BtnPractice)]) qA 0 1).
  - reflexivity.
  - reflexivity.
  - reflexivity.
  - reflexivity.
  - vm_compute. lia.
Defined.

(** ** Revisiting a question in PRACTICE mode *)

(** X10: on a page whose question ids are plain, in PRACTICE mode a click
    on an existing progress item shows that question with all its choices,
    and the feedback area (with that question's explanation) is visible
    exactly when the question already has a record.  (For an id that names
    a member of [Object.prototype] the lookup in renderQuestion is truthy
    without a record; such ids are left out.) *)
Theorem practice_revisit_shows_explanation_iff_answered
    (qs : list Question) (evs : list (Env * Action)) (e : Env) (idx : nat) :
  plainIds qs ->
  let s := run (initialState qs) evs in
  mode s = practice ->
  (idx < progressItems s)%nat ->
  let s' := step s (e, ProgressClick idx) in
  exists q,
    qs !! idx = Some q
    /\ currentQuestionIndex s' = Z.of_nat idx
    /\ questionText s' = Some q
    /\ choiceButtons s' ≡ₚ seq 0 (length (q_choices q))
    /\ (feedbackHidden s' = false <-> is_Some (answers s !! q_id q))
    /\ (feedbackHidden s' = false -> explanation s' = Some q).
Proof.
  intros _ s Hm Hidx s'.
  assert (HI : Inv s) by apply run_Inv, initialState_Inv.
  assert (Hqs : questions s = qs) by apply run_questions.
  destruct HI as [Hitems _ _ _].
  destruct (lookup_lt_is_Some_2 (questions s) idx ltac:(lia)) as [q Hl].
  exists q. split; [by rewrite <- Hqs|].
  set (s1 := set_currentQuestionIndex (Z.of_nat idx) s).
  assert (Hs' : s' = settle (renderQuestion e s1)).
  { subst s'. unfold step. simpl. rewrite decide_True by done.
    unfold progressClick. by rewrite Hm. }
  assert (Hq1 : questionAt s1 (currentQuestionIndex s1) = Some q).
  { subst s1. unfold questionAt. simpl. rewrite decide_True by lia.
    by rewrite Nat2Z.id. }
  rewrite Hs'.
  destruct (renderQuestion_buttons e s1 q Hq1) as [Hb Htext].
  destruct (renderQuestion_feedback e s1 q Hq1) as (Hf&He&_).
  split; [by rewrite renderQuestion_index|].
  split; [done|].
  split; [rewrite Hb; apply shuffledIndices_Permutation|].
  split; [|done].
  rewrite Hf. simpl. split; [by intros [_ ?]|by split].
Qed.

Lemma practice_revisit_shows_explanation_iff_answered_witness :
  let s := run (initialState [qA; qB])
             [(at_ 0, BtnPractice); (at_ 10, ChoiceDblClick 0);
              (at_ 510, TimerFires 0); (at_ 710, TimerFires 0)] in
  let s' := step s (at_ 800, ProgressClick 0) in
  exists q,
    [qA; qB] !! 0%nat = Some q
    /\ currentQuestionIndex s' = Z.of_nat 0
    /\ questionText s' = Some q
    /\ choiceButtons s' ≡ₚ seq 0 (length (q_choices q))
    /\ (feedbackHidden s' = false <-> is_Some (answers s !! q_id q))
    /\ (feedbackHidden s' = false -> explanation s' = Some q).
Proof.
  apply (practice_revisit_shows_explanation_iff_answered [qA; qB]
           [(at_ 0, BtnPractice); (at_ 10, ChoiceDblClick 0);
            (at_ 510, TimerFires 0); (at_ 710, TimerFires 0)] (at_ 800) 0).
  - apply (bool_decide_eq_true_1
             (Forall (λ q, q_id q ∉ prototypeNames) [qA; qB])).
    reflexivity.
  - reflexivity.
  - vm_compute. lia.
Defined.

(** ** Starting a game on a non-empty list *)

(** X11: on a page loaded with at least one question, all ids plain,
    starting a game at any moment sets the mode, puts the index at 0 with
    no answers, shows the first question with every one of its choices once
    and the feedback area hidden, builds one progress item per question and
    hides the start and results screens; records and pending timers are not
    touched.  (For a first question whose id names a member of
    [Object.prototype] the lookup in the empty mapping is truthy and a
    PRACTICE game starts with the feedback area shown; such ids are left
    out.) *)
Theorem startGame_displays_first_question
    (m : Mode) (e : Env) (qs : list Question) (evs : list (Env * Action))
    (q0 : Question) :
  plainIds qs ->
  qs !! 0%nat = Some q0 ->
  let s := run (initialState qs) evs in
  let s' := settle (startGame m e s) in
  mode s' = m
  /\ currentQuestionIndex s' = 0
  /\ answers s' = ∅
  /\ questionText s' = Some q0
  /\ choiceButtons s' ≡ₚ seq 0 (length (q_choices q0))
  /\ feedbackHidden s' = true
  /\ progressItems s' = length qs
  /\ startScreenHidden s' = true
  /\ resultsScreenHidden s' = true
  /\ heap s' = heap s
  /\ timers s' = timers s.
Proof.
  intros _ Hq0 s s'.
  assert (HI : Inv s) by apply run_Inv, initialState_Inv.
  assert (Hqs : questions s = qs) by apply run_questions.
  set (s2 := set_resultsScreenHidden true (set_startScreenHidden true
               (set_answers ∅ (set_currentQuestionIndex 0 (set_mode m s))))).
  assert (HI2 : Inv s2) by (destruct HI; constructor; simpl; try done; lia).
  assert (Hq2 : questionAt s2 (currentQuestionIndex s2) = Some q0).
  { subst s2. unfold questionAt. simpl. by rewrite Hqs. }
  destruct (renderQuestion_Inv e s2 HI2) as [_ Hthrew].
  destruct (renderQuestion_buttons e s2 q0 Hq2) as [Hb Htext].
  destruct (renderQuestion_feedback e s2 q0 Hq2) as (Hf&_&_).
  destruct (renderQuestion_page_only e s2)
    as (Hq'&Hc&Ha&Hm&Hh&Ht&_&Hst&Hr&_).
  assert (Hfb : feedbackHidden (settle (renderQuestion e s2)) = true).
  { destruct (feedbackHidden (settle (renderQuestion e s2))); [done|].
    destruct Hf as [Hf _]. destruct (Hf eq_refl) as [_ [l Hl]].
    simpl in Hl. by rewrite lookup_empty in Hl. }
  assert (Hs' : s' = set_progressItems (length (questions
                       (settle (renderQuestion e s2))))
                       (settle (renderQuestion e s2))).
  { subst s'. unfold startGame. fold s2.
    destruct (renderQuestion e s2) as [s3|s3]; [|done]. simpl.
    unfold renderProgressBar. by rewrite updateProgressBar_settle. }
  rewrite Hs'. simpl. rewrite Hq', Hc, Ha, Hm, Hh, Ht, Hst, Hr, Htext, Hfb, Hb.
  subst s2. simpl. rewrite Hqs.
  repeat split; try done. apply shuffledIndices_Permutation.
Qed.

Lemma startGame_displays_first_question_witness :
  let s := run (initialState [qA; qB])
             [(at_ 0, BtnPractice); (at_ 10, ChoiceDblClick 0)] in
  let s' := settle (startGame test (at_ 20) s) in
  mode s' = test
  /\ currentQuestionIndex s' = 0
  /\ answers s' = ∅
  /\ questionText s' = Some qA
  /\ choiceButtons s' ≡ₚ seq 0 (length (q_choices qA))
  /\ feedbackHidden s' = true
  /\ progressItems s' = length [qA; qB]
  /\ startScreenHidden s' = true
  /\ resultsScreenHidden s' = true
  /\ heap s' = heap s
  /\ timers s' = timers s.
Proof.
  apply (startGame_displays_first_question test (at_ 20) [qA; qB]
           [(at_ 0, BtnPractice); (at_ 10, ChoiceDblClick 0)] qA).
  - apply (bool_decide_eq_true_1
             (Forall (λ q, q_id q ∉ prototypeNames) [qA; qB])).
    reflexivity.
  - reflexivity.
Defined.

(** ** The highlighted tag *)

(** X12: after a click on a tag button of an incorrect entry, the button
    highlighted under that entry is exactly the tag now stored in the
    entry's record (none when the tag was toggled off), the other entries
    are as before, and rendering the entry again from the state highlights
    the same button. *)
Theorem tag_highlight_matches_record
    (k : nat) (tag : Tag) (s : State) (it : ReviewItem) (l : nat) (a : Answer) :
  reviewList s !! k = Some it ->
  r_isCorrect it = false ->
  r_ans it = Some l ->
  heap s !! l = Some a ->
  let s1 := settle (tagClick k tag s) in
  exists it' a',
    reviewList s1 !! k = Some it'
    /\ heap s1 !! l = Some a'
    /\ r_selected it' = tag_of (errorTag a')
    /\ r_question it' = r_question it
    /\ r_ans it' = Some l
    /\ (forall j, j <> k -> reviewList s1 !! j = reviewList s !! j)
    /\ (forall q, answers s !! q_id q = Some l ->
          r_selected (reviewItem s1 q) = r_selected it').
Proof.
  intros Hk Hc Ha Hl s1. subst s1.
  rewrite (tagClick_record _ _ _ it l a) by done. simpl.
  pose proof (lookup_lt_Some _ _ _ Hk) as Hlen.
  pose proof (lookup_lt_Some _ _ _ Hl) as Hlen'.
  assert (Hsel : (if slot_truthy (errorTag (toggled a tag)) then Some tag
                  else None) = tag_of (errorTag (toggled a tag))).
  { unfold toggled. simpl. by destruct (slot_equals (errorTag a) tag). }
  eexists _, (toggled a tag).
  split; [by apply list_lookup_insert_eq|].
  split; [by apply list_lookup_insert_eq|].
  split; [exact Hsel|]. split; [done|]. split; [done|].
  split.
  - intros j Hj. by rewrite list_lookup_insert_ne.
  - intros q Hq. unfold reviewItem. simpl. rewrite Hq. simpl.
    rewrite list_lookup_insert_eq by done. unfold toggled. simpl.
    by destruct (slot_equals (errorTag a) tag).
Qed.

Lemma tag_highlight_matches_record_witness :
  let s := reviewedState in
  let it := {| r_question := qA; r_ans := Some 0%nat; r_isCorrect := false;
               r_selected := None |} in
  let s1 := settle (tagClick 0 Misread s) in
  exists it' a',
    reviewList s1 !! 0%nat = Some it'
    /\ heap s1 !! 0%nat = Some a'
    /\ r_selected it' = tag_of (errorTag a')
    /\ r_question it' = r_question it
    /\ r_ans it' = Some 0%nat
    /\ (forall j, j <> 0%nat -> reviewList s1 !! j = reviewList s !! j)
    /\ (forall q, answers s !! q_id q = Some 0%nat ->
          r_selected (reviewItem s1 q) = r_selected it').
Proof.
  apply (tag_highlight_matches_record 0 Misread reviewedState
           {| r_question := qA; r_ans := Some 0%nat; r_isCorrect := false;
              r_selected := None |} 0
           {| isCorrect := false; selectedIndex := 2; timestamp := 10;
              errorTag := tag_undefined |}).
  - reflexivity.
  - reflexivity.
  - reflexivity.
  - reflexivity.
Defined.

(** * renderMath *)

Lemma replaceFormulas_plain katex (t : list N) :
  dollar ∉ t -> replaceFormulas katex None t = t.
Proof.
  induction t as [|c t IH]; intros Hd; [done|]. simpl.
  apply not_elem_of_cons in Hd as [Hc Ht].
  rewrite decide_False by done. by rewrite IH.
Qed.

Lemma replaceFormulas_opened katex (f g rest : list N) :
  dollar ∉ g -> f ++ g <> [] ->
  replaceFormulas katex (Some f) (g ++ dollar :: rest)
  = replacer katex (f ++ g) ++ replaceFormulas katex None rest.
Proof.
  revert f. induction g as [|c g IH]; intros f Hd Hne; simpl.
  - rewrite app_nil_r in *. by destruct f.
  - apply not_elem_of_cons in Hd as [Hc Hg].
    rewrite decide_False by done.
    rewrite IH; [|done|by destruct f]. by rewrite <- app_assoc.
Qed.

Lemma renderMath_replaceFormulas katex (t : list N) :
  renderMath katex (Some t) = replaceFormulas katex None t.
Proof. by destruct t. Qed.

(** X16: a text without a dollar sign is returned as it is. *)
Theorem renderMath_plain_text
    (katex : list N -> option (list N)) (t : list N) :
  dollar ∉ t -> renderMath katex (Some t) = t.
Proof.
  intros Hd. rewrite renderMath_replaceFormulas.
  by apply replaceFormulas_plain.
Qed.

Lemma renderMath_plain_text_witness :
  renderMath (λ f, Some f) (Some [97; 98; 99]%N) = [97; 98; 99]%N.
Proof.
  apply (renderMath_plain_text (λ f, Some f) [97; 98; 99]%N).
  apply (bool_decide_eq_true_1 (dollar ∉ [97; 98; 99]%N)). reflexivity.
Defined.

(** X17: in a text that starts with dollar-free text, then a dollar sign,
    a non-empty dollar-free formula and a dollar sign, the leading text is
    kept, the formula with its two dollar signs is replaced by what the
    replacer returns for it, and the rest is rendered in the same way. *)
Theorem renderMath_formula
    (katex : list N -> option (list N)) (pre f rest : list N) :
  dollar ∉ pre -> dollar ∉ f -> f <> [] ->
  renderMath katex (Some (pre ++ dollar :: f ++ dollar :: rest))
  = pre ++ replacer katex f ++ renderMath katex (Some rest).
Proof.
  intros Hpre Hf Hne. rewrite !renderMath_replaceFormulas.
  induction pre as [|c pre IH]; simpl.
  - by rewrite (replaceFormulas_opened katex [] f rest).
  - apply not_elem_of_cons in Hpre as [Hc Hpre].
    rewrite decide_False by done. by rewrite IH.
Qed.

Lemma renderMath_formula_witness :
  renderMath (λ f, Some (60 :: f ++ [62]))%N
    (Some ([97] ++ dollar :: [120; 121] ++ dollar :: [98; 36])%N)
  = ([97] ++ replacer (λ f, Some (60 :: f ++ [62])) [120; 121]
      ++ renderMath (λ f, Some (60 :: f ++ [62])) (Some [98; 36]))%N.
Proof.
  apply (renderMath_formula (λ f, Some (60 :: f ++ [62]))%N
           [97]%N [120; 121]%N [98; 36]%N).
  - apply (bool_decide_eq_true_1 (dollar ∉ [97]%N)). reflexivity.
  - apply (bool_decide_eq_true_1 (dollar ∉ [120; 121]%N)). reflexivity.
  - discriminate.
Defined.

Lemma replaceFormulas_failing katex (opened : option (list N)) (t : list N) :
  (forall f, katex f = None) ->
  replaceFormulas katex opened t
  = match opened with None => t | Some f => dollar :: f ++ t end.
Proof.
  intros Hfail. revert opened.
  induction t as [|c t IH]; intros [f|]; simpl.
  - by rewrite app_nil_r.
  - done.
  - case_decide as Hc.
    + subst c. destruct f as [|c' f].
      * by rewrite IH.
      * rewrite IH. unfold replacer. rewrite Hfail. simpl.
        by rewrite <- app_assoc.
    + rewrite IH. by rewrite <- app_assoc.
  - case_decide as Hc.
    + subst c. by rewrite IH.
    + by rewrite IH.
Qed.

(** X18: when the renderer throws on every formula, every text is returned
    exactly as it was given. *)
Theorem renderMath_failing_renderer
    (katex : list N -> option (list N)) (t : list N) :
  (forall f, katex f = None) -> renderMath katex (Some t) = t.
Proof.
  intros Hfail. rewrite renderMath_replaceFormulas.
  by rewrite replaceFormulas_failing.
Qed.

Lemma renderMath_failing_renderer_witness :
  renderMath (λ _, None) (Some [36; 120; 36; 36; 121; 36]%N)
  = [36; 120; 36; 36; 121; 36]%N.
Proof.
  apply (renderMath_failing_renderer (λ _, None) [36; 120; 36; 36; 121; 36]%N).
  intros f. reflexivity.
Defined.

(** * The progress bar *)

Lemma dispatch_items a e s :
  let s' := settle (dispatch a e s) in
  progressItems s' = progressItems s
  \/ progressItems s' = length (questions s).
Proof.
  destruct a; simpl.
  - unfold startGame. set (s2 := set_resultsScreenHidden _ _).
    destruct (renderQuestion_page_only e s2)
      as (Hq&_&_&_&_&_&_&_&_&Hi&_).
    destruct (renderQuestion e s2) as [s3|s3]; simpl in *.
    + right. unfold renderProgressBar. rewrite updateProgressBar_settle.
      simpl. by rewrite Hq.
    + by left.
  - unfold startGame. set (s2 := set_resultsScreenHidden _ _).
    destruct (renderQuestion_page_only e s2)
      as (Hq&_&_&_&_&_&_&_&_&Hi&_).
    destruct (renderQuestion e s2) as [s3|s3]; simpl in *.
    + right. unfold renderProgressBar. rewrite updateProgressBar_settle.
      simpl. by rewrite Hq.
    + by left.
  - by left.
  - left. by destruct (choiceButtons s !! pos).
  - left. destruct (choiceButtons s !! pos) as [k|]; [|done].
    unfold handleChoice. simpl.
    destruct (questionAt s (currentQuestionIndex s)) as [q|]; [|done].
    destruct (mode s); simpl; [done|]. by rewrite nextQuestion_items.
  - left. case_decide; [|done]. unfold progressClick.
    destruct (mode s); [by rewrite renderQuestion_items|].
    case_decide; [|done]. by rewrite renderQuestion_items.
  - left. unfold tagClick. destruct (reviewList s !! item) as [it|]; [|done].
    destruct (r_isCorrect it); [done|]. simpl.
    destruct (r_ans it) as [l|]; [destruct (heap s !! l)|]; done.
  - left. unfold fireTimer.
    destruct (timers s !! k) as [[d [q|]]|]; [done| |done]. simpl.
    by rewrite nextQuestion_items.
Qed.

Lemma run_items_all_or_none qs evs :
  items_all_or_none (run (initialState qs) evs).
Proof.
  apply (run_preserves items_all_or_none (λ _, True)).
  - intros s ev _ [H0|Hn]; unfold items_all_or_none, step;
      rewrite dispatch_questions;
      destruct (dispatch_items ev.2 ev.1 s) as [->| ->]; auto.
  - by apply Forall_forall.
  - by left.
Qed.

(** X19: once the progress bar has been built it has one item per
    question, updateProgressBar finds a question for each of them, and
    exactly one item gets the [active] class: the one of the current
    question. *)
Theorem one_active_progress_item
    (qs : list Question) (evs : list (Env * Action)) (wasBlue : bool) :
  let s := run (initialState qs) evs in
  progressItems s <> 0%nat ->
  progressItems s = length qs
  /\ exists c, (c < progressItems s)%nat
     /\ Z.of_nat c = currentQuestionIndex s
     /\ forall idx, (idx < progressItems s)%nat ->
          exists look, itemLook s idx wasBlue = Some look
                       /\ (look_active look = true <-> idx = c).
Proof.
  intros s Hne.
  assert (HI : Inv s) by apply run_Inv, initialState_Inv.
  assert (Hqs : questions s = qs) by apply run_questions.
  destruct (run_items_all_or_none qs evs) as [H0|Hn]; [done|].
  fold s in Hn. rewrite Hqs in Hn. split; [done|].
  destruct HI as [_ Hlo Hhi _]. rewrite Hqs in Hhi.
  exists (Z.to_nat (currentQuestionIndex s)).
  split; [lia|]. split; [lia|].
  intros idx Hidx.
  destruct (lookup_lt_is_Some_2 (questions s) idx) as [q Hq];
    [rewrite Hqs; lia|].
  unfold itemLook. rewrite Hq.
  destruct (answers s !! q_id q); [destruct (mode s)|];
    eexists; (split; [done|]); simpl;
    rewrite bool_decide_eq_true; lia.
Qed.

Lemma one_active_progress_item_witness :
  let s := run (initialState [qA; qB])
             [(at_ 0, BtnTest); (at_ 10, ChoiceDblClick 0)] in
  progressItems s = length [qA; qB]
  /\ exists c, (c < progressItems s)%nat
     /\ Z.of_nat c = currentQuestionIndex s
     /\ forall idx, (idx < progressItems s)%nat ->
          exists look, itemLook s idx false = Some look
                       /\ (look_active look = true <-> idx = c).
Proof.
  apply (one_active_progress_item [qA; qB]
           [(at_ 0, BtnTest); (at_ 10, ChoiceDblClick 0)] false).
  vm_compute. discriminate.
Defined.

(** X20: on a page whose question ids are plain, in TEST mode the look of
    a progress item does not depend on the contents of the records: no item
    ever gets a [correct] or [incorrect] class, and an item is blue exactly
    when its question has an answer.  (For an id that names a member of
    [Object.prototype] the lookup in updateProgressBar is truthy without a
    record and the item is blue; such ids are left out.) *)
Theorem test_progress_bar_hides_verdicts
    (qs : list Question) (evs : list (Env * Action)) (h : list Answer)
    (idx : nat) (wasBlue : bool) :
  plainIds qs ->
  let s := run (initialState qs) evs in
  mode s = test ->
  itemLook (set_heap h s) idx wasBlue = itemLook s idx wasBlue
  /\ (forall look, itemLook s idx wasBlue = Some look ->
        look_verdict look = None
        /\ (look_blue look = true <->
            exists q, qs !! idx = Some q
                      /\ is_Some (answers s !! q_id q))).
Proof.
  intros _ s Hm.
  assert (Hqs : questions s = qs) by apply run_questions.
  unfold itemLook. simpl. rewrite Hm, Hqs. split; [done|].
  intros look. destruct (qs !! idx) as [q|]; [|done].
  destruct (answers s !! q_id q) as [l|] eqn:Ha; intros [= <-]; simpl.
  - split; [done|]. split; [|done]. intros _. exists q. split; [done|].
    by eexists.
  - split; [done|]. split; [done|]. intros (q'&[= <-]&[l Hl]). congruence.
Qed.

Lemma test_progress_bar_hides_verdicts_witness :
  let s := run (initialState [qA; qB])
             [(at_ 0, BtnTest); (at_ 10, ChoiceDblClick 0)] in
  itemLook (set_heap [] s) 0 false = itemLook s 0 false
  /\ (forall look, itemLook s 0 false = Some look ->
        look_verdict look = None
        /\ (look_blue look = true <->
            exists q, [qA; qB] !! 0%nat = Some q
                      /\ is_Some (answers s !! q_id q))).
Proof.
  apply (test_progress_bar_hides_verdicts [qA; qB]
           [(at_ 0, BtnTest); (at_ 10, ChoiceDblClick 0)] [] 0 false).
  - apply (bool_decide_eq_true_1
             (Forall (λ q, q_id q ∉ prototypeNames) [qA; qB])).
    reflexivity.
  - reflexivity.
Defined.

(** updateProgressBar throws exactly when some item has no look. *)
Lemma updateProgressBar_itemLook s wasBlue :
  updateProgressBar s = Done s
  <-> forall idx, (idx < progressItems s)%nat ->
        is_Some (itemLook s idx wasBlue).
Proof.
  unfold updateProgressBar. split.
  - case_decide as Hle; [|done]. intros _ idx Hidx.
    destruct (lookup_lt_is_Some_2 (questions s) idx) as [q Hq]; [lia|].
    unfold itemLook. rewrite Hq.
    destruct (answers s !! q_id q); [destruct (mode s)|]; by eexists.
  - intros Hall. case_decide as Hle; [done|].
    destruct (Hall (length (questions s))) as [look Hlook]; [lia|].
    unfold itemLook in Hlook. by rewrite lookup_ge_None_2 in Hlook.
Qed.

(** * The sketch surface *)

Lemma ink_issue new c s :
  ink (set_ctx (issue new c) s)
  = filter (λ op, isInk op = true) (ops c)
    ++ filter (λ op, isInk op = true) new.
Proof. unfold ink. simpl. by rewrite filter_app. Qed.

Lemma draw_idle p s :
  isPainting s = false \/ d_enabled (drawing s) = false -> draw p s = s.
Proof. intros [H|H]; unfold draw; rewrite H; by destruct (isPainting s). Qed.

Lemma sketchStep_off s ev :
  ev <> ClickToggle -> d_enabled (drawing s) = false ->
  d_enabled (drawing (sketchStep s ev)) = false
  /\ ink (sketchStep s ev) = ink s.
Proof.
  intros Hne Hoff. destruct ev; simpl; try done.
  - unfold startPosition. by rewrite Hoff.
  - split; [done|]. unfold finishedPosition.
    rewrite ink_issue. simpl. by rewrite app_nil_r.
  - rewrite draw_idle by (by right). done.
  - split; [done|]. unfold ink. simpl. rewrite filter_app. simpl.
    by rewrite app_nil_r.
  - split; [done|]. unfold clearCanvas. rewrite ink_issue. simpl.
    by rewrite app_nil_r.
Qed.

(** X21: while drawing is switched off and the toggle is not clicked, no
    event puts ink on the canvas: pressing, moving, releasing, choosing
    tools, clearing, resizing and undo issue no [lineTo] and no [stroke],
    and drawing stays off. *)
Theorem drawing_off_puts_no_ink (s : Sketch) (evs : list SketchEvent) :
  d_enabled (drawing s) = false ->
  Forall (λ ev, ev <> ClickToggle) evs ->
  d_enabled (drawing (sketchRun s evs)) = false
  /\ ink (sketchRun s evs) = ink s.
Proof.
  revert s. induction evs as [|ev evs IH]; intros s Hoff Hall; [done|].
  inversion Hall; subst. simpl.
  destruct (sketchStep_off s ev) as [Hoff' Hink]; [done|done|].
  destruct (IH _ Hoff') as [? ?]; [done|]. split; congruence.
Qed.

Lemma drawing_off_puts_no_ink_witness :
  let bar := {| penBlackActive := true; penRedActive := false;
                eraserActive := false; toggleActive := true;
                toggleText := None |} in
  let p := {| clientX := 20; clientY := 30; pageX := 20; pageY := 30;
              rectLeft := 10; rectTop := 5 |} in
  let s := sketchRun (initialSketch 300 200 bar) [ClickToggle] in
  d_enabled (drawing (sketchRun s [PointerDown p; PointerMove p; PointerUp]))
  = false
  /\ ink (sketchRun s [PointerDown p; PointerMove p; PointerUp]) = ink s.
Proof.
  apply (drawing_off_puts_no_ink
           (sketchRun (initialSketch 300 200
              {| penBlackActive := true; penRedActive := false;
                 eraserActive := false; toggleActive := true;
                 toggleText := None |}) [ClickToggle])).
  - reflexivity.
  - repeat (constructor; [discriminate|]). constructor.
Defined.

Lemma sketchStep_not_pressed s ev :
  (forall p, ev <> PointerDown p) -> isPainting s = false ->
  isPainting (sketchStep s ev) = false /\ ink (sketchStep s ev) = ink s.
Proof.
  intros Hne Hup. destruct ev; simpl; try done.
  - by destruct (Hne p).
  - split; [done|]. unfold finishedPosition.
    rewrite ink_issue. simpl. by rewrite app_nil_r.
  - rewrite draw_idle by (by left). done.
  - split; [done|]. unfold ink. simpl. rewrite filter_app. simpl.
    by rewrite app_nil_r.
  - split; [done|]. unfold clearCanvas. rewrite ink_issue. simpl.
    by rewrite app_nil_r.
Qed.

(** X22: when no stroke is in progress and no press (mouse down or touch
    start) occurs, nothing is drawn: moves alone never put ink on the
    canvas, whatever tool is chosen and whether drawing is on or off. *)
Theorem no_ink_without_a_press (s : Sketch) (evs : list SketchEvent) :
  isPainting s = false ->
  Forall (λ ev, forall p, ev <> PointerDown p) evs ->
  isPainting (sketchRun s evs) = false /\ ink (sketchRun s evs) = ink s.
Proof.
  revert s. induction evs as [|ev evs IH]; intros s Hup Hall; [done|].
  inversion Hall; subst. simpl.
  destruct (sketchStep_not_pressed s ev) as [Hup' Hink]; [done|done|].
  destruct (IH _ Hup') as [? ?]; [done|]. split; congruence.
Qed.

Lemma no_ink_without_a_press_witness :
  let bar := {| penBlackActive := true; penRedActive := false;
                eraserActive := false; toggleActive := true;
                toggleText := None |} in
  let p := {| clientX := 20; clientY := 30; pageX := 20; pageY := 30;
              rectLeft := 10; rectTop := 5 |} in
  let s := initialSketch 300 200 bar in
  isPainting (sketchRun s [PointerMove p; ClickPenRed; PointerMove p]) = false
  /\ ink (sketchRun s [PointerMove p; ClickPenRed; PointerMove p]) = ink s.
Proof.
  apply (no_ink_without_a_press
           (initialSketch 300 200
              {| penBlackActive := true; penRedActive := false;
                 eraserActive := false; toggleActive := true;
                 toggleText := None |})).
  - reflexivity.
  - repeat (constructor; [discriminate|]). constructor.
Defined.

Lemma draw_frame p s :
  drawing (draw p s) = drawing s /\ toolbar (draw p s) = toolbar s.
Proof.
  unfold draw. destruct (negb (isPainting s) || negb (d_enabled (drawing s)));
    [done|]. by destruct (d_tool (drawing s)).
Qed.

Lemma sketchStep_toolShown s ev :
  toolShown s \/ isToolClick ev = true -> toolShown (sketchStep s ev).
Proof.
  intros H. destruct ev; simpl in *;
    try (destruct H as [H|H]; [|done]).
  - unfold startPosition. destruct (negb (d_enabled (drawing s))); [done|].
    unfold toolShown. by destruct (draw_frame p (set_isPainting true s)) as [-> ->].
  - done.
  - unfold toolShown. by destruct (draw_frame p s) as [-> ->].
  - done.
  - by repeat split.
  - by repeat split.
  - by repeat split.
  - done.
  - done.
  - done.
Qed.

Lemma sketchRun_toolShown evs s : toolShown s -> toolShown (sketchRun s evs).
Proof.
  revert s. induction evs as [|ev evs IH]; intros s H; [done|].
  simpl. apply IH, sketchStep_toolShown. by left.
Qed.

(** X23: from the first click on a tool button onwards, the [active]
    classes of the three tool buttons show the tool in [state.drawing]:
    the eraser button is active exactly when the tool is the eraser, a pen
    button exactly when the tool is the pen with that colour. *)
Theorem tool_buttons_show_current_tool
    (s : Sketch) (before after : list SketchEvent) (ev : SketchEvent) :
  isToolClick ev = true ->
  toolShown (sketchRun s (before ++ ev :: after)).
Proof.
  intros Hev. unfold sketchRun. rewrite foldl_app. simpl.
  apply sketchRun_toolShown, sketchStep_toolShown. by right.
Qed.

Lemma tool_buttons_show_current_tool_witness :
  toolShown
    (sketchRun
       (initialSketch 300 200
          {| penBlackActive := false; penRedActive := true;
             eraserActive := true; toggleActive := true;
             toggleText := None |})
       ([ClickToggle] ++ ClickEraser :: [ClickToggle; ClickClear])).
Proof.
  apply (tool_buttons_show_current_tool
           (initialSketch 300 200
              {| penBlackActive := false; penRedActive := true;
                 eraserActive := true; toggleActive := true;
                 toggleText := None |})
           [ClickToggle] [ClickToggle; ClickClear] ClickEraser).
  reflexivity.
Defined.

(** * Records of other questions *)

Lemma step_answers_allocated s ev :
  answers_allocated s -> answers_allocated (step s ev).
Proof.
  intros HA k l. unfold step.
  destruct (dispatch_answers ev.2 ev.1 s) as [Ha|[Ha|(q&sel&Hq&Ha&Hh)]];
    rewrite Ha.
  - by rewrite lookup_empty.
  - intros Hl%HA.
    destruct (dispatch_heap ev.2 ev.1 s) as [Hh|[(obj&Hh)|(l0&r0&tag&_&Hh)]];
      rewrite Hh.
    + done.
    + rewrite length_app. simpl. lia.
    + by rewrite length_insert.
  - rewrite Hh, length_app. simpl.
    destruct (decide (q_id q = k)) as [<-|Hne].
    + rewrite lookup_insert_eq. intros [= <-]. lia.
    + rewrite lookup_insert_ne by done. intros Hl%HA. lia.
Qed.

Lemma run_answers_allocated qs evs :
  answers_allocated (run (initialState qs) evs).
Proof.
  apply (run_preserves answers_allocated (λ _, True)).
  - intros s ev _. apply step_answers_allocated.
  - by apply Forall_forall.
  - intros k l. simpl. by rewrite lookup_empty.
Qed.

(** X13: on the loaded page, at any moment, a confirmed submission leaves
    the record of every question id other than the current question's as it
    was. *)
Theorem submission_changes_one_record
    (qs : list Question) (evs : list (Env * Action)) (e : Env) (pos : nat)
    (q : Question) (k : string) :
  let s := run (initialState qs) evs in
  questionAt s (currentQuestionIndex s) = Some q ->
  k <> q_id q ->
  answerAt (step s (e, ChoiceDblClick pos)) k = answerAt s k.
Proof.
  intros s Hq Hk. unfold step. simpl.
  destruct (choiceButtons s !! pos) as [c|]; [|done].
  destruct (handleChoice_store (Z.of_nat c) e s q Hq) as [Ha Hh].
  unfold answerAt. rewrite Ha, Hh, lookup_insert_ne by done.
  destruct (answers s !! k) as [l|] eqn:Hl; [simpl|done].
  apply lookup_app_l. by apply (run_answers_allocated qs evs k).
Qed.

Lemma submission_changes_one_record_witness :
  let s := run (initialState [qA; qB])
             [(at_ 0, BtnTest); (at_ 10, ChoiceDblClick 1)] in
  answerAt (step s (at_ 20, ChoiceDblClick 0)) "a" = answerAt s "a".
Proof.
  apply (submission_changes_one_record [qA; qB]
           [(at_ 0, BtnTest); (at_ 10, ChoiceDblClick 1)] (at_ 20) 0 qB "a").
  - reflexivity.
  - discriminate.
Defined.


